(** * AFML FocusManager: a shallow embedding of [AFML/src/FocusManager.cpp]

    The focus manager arbitrates a fixed registry of prioritised channels.
    Its state-changing work runs as tasks on a single executor thread; each
    task is embedded below as a computation in a small state-and-trace monad.
    Calls that leave the manager (observer callbacks, the activity tracker,
    the promise of a release) are recorded as events of the trace. *)

From stdpp Require Import gmap strings list fin_maps sorting.

Open Scope string_scope.
Open Scope list_scope.

(** ** Values shared with the collaborators *)

Inductive FocusState : Type := NONE | BACKGROUND | FOREGROUND.

#[global] Instance FocusState_eq_dec : EqDecision FocusState.
Proof. solve_decision. Defined.

(** Observers, trackers and promises are heap objects held through
    [shared_ptr]; only their identity matters here. *)
Abbreviation ChannelObserver := nat (only parsing).
Abbreviation FocusManagerObserver := nat (only parsing).
Abbreviation ActivityTracker := nat (only parsing).
Abbreviation Promise := nat (only parsing).

(** A [shared_ptr<Channel>] is represented by the key under which the
    registry stores the channel: every handle the manager passes around comes
    from [getChannel] or from the active set, and the registry never loses a
    channel. The channel objects live in one store, [m_allChannels]; the
    active set and the tasks hold handles into it. An access through a handle
    that is not a key, which no execution produces, is modelled as doing
    nothing. *)
Abbreviation Handle := string (only parsing).

(** The record [Channel::getState] hands to the activity tracker. *)
Record ActivityRecord : Type := mkActivityRecord {
  ar_name : string;
  ar_focusState : FocusState;
  ar_interfaceName : string
}.

(** The calls that leave the manager, in the order they are made:
    [ChannelObserverInterface::onFocusChanged] on a channel's observer,
    [FocusManagerObserverInterface::onFocusChanged] on a registered observer,
    [notifyOfActivityUpdates] on the tracker, and [set_value] on the promise
    of a release. [ActivityPushBack] marks the moment a record is appended to
    [m_activityUpdates], so that a trace tells which records an operation
    produced. *)
Inductive Event : Type :=
| ChannelOnFocusChanged (observer : ChannelObserver) (focus : FocusState)
| ManagerOnFocusChanged (observer : FocusManagerObserver) (channelName : string)
    (focus : FocusState)
| ActivityPushBack (record : ActivityRecord)
| NotifyOfActivityUpdates (tracker : ActivityTracker) (batch : list ActivityRecord)
| PromiseSetValue (promise : Promise) (value : bool).

(** ** The Channel class *)

Module Channel.

(** Modelled from the spec: the Channel class (Channel.h and Channel.cpp are
    not among the sources). Fields as in the data model: name and priority
    are immutable, the focus state, the owner's interface name and the
    attached observer change. The interface name is a [std::string] in
    [FocusManager.cpp]; the empty string stands for no owner. *)
Record t : Type := mk {
  name : string;
  priority : N;
  focusState : FocusState;
  interfaceName : string;
  observer : option ChannelObserver
}.

(** Modelled from the spec: the constructor [Channel(name, priority)]; a
    channel starts unowned with focus NONE. *)
Definition new (n : string) (p : N) : t :=
  mk n p NONE "" None.

Definition getName (c : t) : string := name c.
Definition getPriority (c : t) : N := priority c.
Definition getInterface (c : t) : string := interfaceName c.

(** Modelled from the spec: [Channel::getState], the activity record of the
    channel as it is now. *)
Definition getState (c : t) : ActivityRecord :=
  mkActivityRecord (name c) (focusState c) (interfaceName c).

(** Modelled from the spec: [Channel::setFocus]. Nothing happens and [false]
    is returned when the focus is the current one. Otherwise the state is
    updated, the attached observer (if any) is called back with the new
    focus, and [true] is returned. A channel that reaches NONE is vacated:
    its observer is detached after the callback (section 3, Lifecycle:
    ownership is reset on release or stop; section 4.1: [hasObserver] tells
    an already vacated channel). The interface name is written by
    [setInterface] only. *)
Definition setFocus (c : t) (focus : FocusState) : bool * t * list Event :=
  if decide (focus = focusState c) then (false, c, [])
  else
    let notified :=
      match observer c with
      | Some o => [ChannelOnFocusChanged o focus]
      | None => []
      end in
    let detached :=
      if decide (focus = NONE) then None else observer c in
    (true, mk (name c) (priority c) focus (interfaceName c) detached, notified).

(** Modelled from the spec: [Channel::setObserver] replaces the attached
    observer and notifies nobody. *)
Definition setObserver (c : t) (o : option ChannelObserver) : t :=
  mk (name c) (priority c) (focusState c) (interfaceName c) o.

(** Modelled from the spec: [Channel::setInterface]. *)
Definition setInterface (c : t) (i : string) : t :=
  mk (name c) (priority c) (focusState c) i (observer c).

(** Modelled from the spec: [Channel::doesObserverOwnChannel], identity
    comparison of the two pointers (both may be null). *)
Definition doesObserverOwnChannel (c : t) (o : option ChannelObserver) : bool :=
  bool_decide (o = observer c).

(** Modelled from the spec: [Channel::hasObserver]. *)
Definition hasObserver (c : t) : bool :=
  bool_decide (observer c ≠ None).

(** Modelled from the spec: [Channel::operator>]; a channel is greater when
    its priority value is numerically smaller. *)
Definition gt (lhs rhs : t) : bool :=
  bool_decide (priority lhs < priority rhs)%N.

End Channel.

(** ** Tasks handed to the executor *)

(** A priority is an [unsigned int]; priorities are only compared, never
    computed with, so they are taken in [N] without a bound. *)
Record ChannelConfiguration : Type := mkChannelConfiguration {
  cfg_name : string;
  cfg_priority : N
}.

(** One constructor per lambda submitted in [FocusManager.cpp], with the
    values the lambda captures. The capture of [stopAllActivities] is a map
    keyed by channel pointers; it is represented by the list of its entries
    in the order the map is iterated. *)
Inductive Task : Type :=
| AcquireTask (channelToAcquire : Handle)
    (channelObserver : option ChannelObserver) (interface : string)
| ReleaseTask (channelToRelease : Handle)
    (channelObserver : option ChannelObserver)
    (releaseChannelSuccess : Promise) (channelName : string)
| StopForegroundTask (foregroundChannel : Handle)
    (foregroundChannelInterface : string)
| StopAllTask (channelOwnersCapture : list (Handle * string)).

(** ** The manager's members

    [m_observers] is a set of observer pointers; the order in which it is
    iterated is the order of [elements]. *)

Record FocusManager : Type := mkFocusManager {
  m_allChannels : gmap string Channel.t;
  m_activeChannels : list Handle;
  m_observers : gset FocusManagerObserver;
  m_activityTracker : option ActivityTracker;
  m_activityUpdates : list ActivityRecord;
  m_executor : list Task
}.

Definition set_allChannels (v : gmap string Channel.t) (s : FocusManager) :=
  mkFocusManager v (m_activeChannels s) (m_observers s) (m_activityTracker s)
    (m_activityUpdates s) (m_executor s).

Definition set_activeChannels (v : list Handle) (s : FocusManager) :=
  mkFocusManager (m_allChannels s) v (m_observers s) (m_activityTracker s)
    (m_activityUpdates s) (m_executor s).

Definition set_observers (v : gset FocusManagerObserver) (s : FocusManager) :=
  mkFocusManager (m_allChannels s) (m_activeChannels s) v (m_activityTracker s)
    (m_activityUpdates s) (m_executor s).

Definition set_activityUpdates (v : list ActivityRecord) (s : FocusManager) :=
  mkFocusManager (m_allChannels s) (m_activeChannels s) (m_observers s)
    (m_activityTracker s) v (m_executor s).

Definition set_executor (v : list Task) (s : FocusManager) :=
  mkFocusManager (m_allChannels s) (m_activeChannels s) (m_observers s)
    (m_activityTracker s) (m_activityUpdates s) v.

(** ** The state-and-trace monad

    A computation takes the manager, returns a value and the manager it
    leaves, and lists the events it produced. *)

Definition M (A : Type) : Type := FocusManager → A * FocusManager * list Event.

#[global] Instance M_ret : MRet M := λ A a s, (a, s, []).

#[global] Instance M_bind : MBind M := λ A B k m s,
  let r1 := m s in
  let r2 := k r1.1.1 r1.1.2 in
  (r2.1.1, r2.1.2, r1.2 ++ r2.2).

Definition get : M FocusManager := λ s, (s, s, []).
Definition modify (f : FocusManager → FocusManager) : M unit := λ s, (tt, f s, []).
Definition emit (evs : list Event) : M unit := λ s, (tt, s, evs).

Definition final {A} (r : A * FocusManager * list Event) : FocusManager := r.1.2.
Definition trace {A} (r : A * FocusManager * list Event) : list Event := r.2.

Fixpoint for_each {A} (l : list A) (body : A → M unit) : M unit :=
  match l with
  | [] => mret tt
  | x :: l' => body x;; for_each l' body
  end.

(** ** The active set

    Modelled from the spec: the declaration of [m_activeChannels]
    (FocusManager.h is not among the sources), an ordered set of channel
    handles whose comparator dereferences both handles and applies
    [Channel::operator>], so that iteration starts at the smallest priority
    value. [std::set] treats two elements as the same when neither compares
    before the other. *)
Definition ChannelPtrComparator (all : gmap string Channel.t)
    (first second : Handle) : bool :=
  match all !! first, all !! second with
  | Some a, Some b => Channel.gt a b
  | _, _ => false
  end.

(** [std::set::insert] on the sequence the set iterates over: nothing is
    inserted when an equivalent element is present. *)
Fixpoint set_insert (lt : Handle → Handle → bool) (x : Handle)
    (l : list Handle) : list Handle :=
  match l with
  | [] => [x]
  | y :: l' =>
    if lt x y then x :: y :: l'
    else if lt y x then y :: set_insert lt x l'
    else y :: l'
  end.

(** [std::set::erase] by key: the element equivalent to [x], looked up along
    the order, is removed if there is one. *)
Fixpoint set_erase (lt : Handle → Handle → bool) (x : Handle)
    (l : list Handle) : list Handle :=
  match l with
  | [] => []
  | y :: l' =>
    if lt y x then y :: set_erase lt x l'
    else if lt x y then y :: l'
    else l'
  end.

(** ** Registry look-ups (FocusManager.cpp, lines 257-287) *)

Definition getChannel (s : FocusManager) (channelName : string) : option Handle :=
  match m_allChannels s !! channelName with
  | Some _ => Some channelName
  | None => None
  end.

Definition getHighestPriorityActiveChannelLocked (s : FocusManager) : option Handle :=
  match m_activeChannels s with
  | [] => None
  | h :: _ => Some h
  end.

Definition isChannelForegroundedLocked (s : FocusManager) (channel : Handle) : bool :=
  bool_decide (getHighestPriorityActiveChannelLocked s = Some channel).

Definition doesChannelNameExist (all : gmap string Channel.t) (n : string) : bool :=
  bool_decide (is_Some (all !! n)).

Definition doesChannelPriorityExist (all : gmap string Channel.t) (p : N) : bool :=
  existsb (λ kc, bool_decide (Channel.getPriority kc.2 = p)) (map_to_list all).

(** ** Construction (lines 36-53) *)

Definition add_configuration (all : gmap string Channel.t)
    (config : ChannelConfiguration) : gmap string Channel.t :=
  if doesChannelNameExist all (cfg_name config) then all
  else if doesChannelPriorityExist all (cfg_priority config) then all
  else <[cfg_name config := Channel.new (cfg_name config) (cfg_priority config)]> all.

Definition FocusManager_new (channelConfigurations : list ChannelConfiguration)
    (activityTrackerInterface : option ActivityTracker) : FocusManager :=
  mkFocusManager (foldl add_configuration ∅ channelConfigurations)
    [] ∅ activityTrackerInterface [] [].

(** ** Notification (lines 141-152 and 299-304) *)

Definition setChannelFocus (channel : Handle) (focus : FocusState) : M unit :=
  s ← get;
  match m_allChannels s !! channel with
  | None => mret tt
  | Some c =>
    let r := Channel.setFocus c focus in
    if r.1.1 then
      modify (set_allChannels (<[channel := r.1.2]> (m_allChannels s)));;
      emit r.2;;
      emit (map (λ o, ManagerOnFocusChanged o (Channel.getName r.1.2) focus)
                (elements (m_observers s)));;
      emit [ActivityPushBack (Channel.getState r.1.2)];;
      modify (λ s', set_activityUpdates
                      (m_activityUpdates s' ++ [Channel.getState r.1.2]) s')
    else mret tt
  end.

Definition notifyActivityTracker : M unit :=
  s ← get;
  match m_activityTracker s with
  | Some tracker => emit [NotifyOfActivityUpdates tracker (m_activityUpdates s)]
  | None => mret tt
  end;;
  modify (set_activityUpdates []).

Definition foregroundHighestPriorityActiveChannel : M unit :=
  s ← get;
  match getHighestPriorityActiveChannelLocked s with
  | Some channelToForeground => setChannelFocus channelToForeground FOREGROUND
  | None => mret tt
  end.

(** Updates a channel in place through its handle. *)
Definition update_channel (channel : Handle) (f : Channel.t → Channel.t) : M unit :=
  modify (λ s, set_allChannels (alter f channel (m_allChannels s)) s).

(** ** The queued tasks (lines 154-255) *)

Definition acquireChannelHelper (channelToAcquire : Handle)
    (channelObserver : option ChannelObserver) (interface : string) : M unit :=
  setChannelFocus channelToAcquire NONE;;
  s ← get;
  let foregroundChannel := getHighestPriorityActiveChannelLocked s in
  update_channel channelToAcquire (λ c, Channel.setInterface c interface);;
  modify (λ s', set_activeChannels
    (set_insert (ChannelPtrComparator (m_allChannels s')) channelToAcquire
       (m_activeChannels s')) s');;
  update_channel channelToAcquire (λ c, Channel.setObserver c channelObserver);;
  s2 ← get;
  match foregroundChannel with
  | None => setChannelFocus channelToAcquire FOREGROUND
  | Some fg =>
    if decide (fg = channelToAcquire) then
      setChannelFocus channelToAcquire FOREGROUND
    else if ChannelPtrComparator (m_allChannels s2) channelToAcquire fg then
      setChannelFocus fg BACKGROUND;;
      setChannelFocus channelToAcquire FOREGROUND
    else
      setChannelFocus channelToAcquire BACKGROUND
  end;;
  notifyActivityTracker.

Definition releaseChannelHelper (channelToRelease : Handle)
    (channelObserver : option ChannelObserver)
    (releaseChannelSuccess : Promise) (name : string) : M unit :=
  s ← get;
  match m_allChannels s !! channelToRelease with
  | None => mret tt
  | Some c =>
    if negb (Channel.doesObserverOwnChannel c channelObserver) then
      emit [PromiseSetValue releaseChannelSuccess false]
    else
      emit [PromiseSetValue releaseChannelSuccess true];;
      let wasForegrounded := isChannelForegroundedLocked s channelToRelease in
      modify (λ s', set_activeChannels
        (set_erase (ChannelPtrComparator (m_allChannels s')) channelToRelease
           (m_activeChannels s')) s');;
      setChannelFocus channelToRelease NONE;;
      (if wasForegrounded then foregroundHighestPriorityActiveChannel
       else mret tt);;
      notifyActivityTracker
  end.

Definition stopForegroundActivityHelper (foregroundChannel : Handle)
    (foregroundChannelInterface : string) : M unit :=
  s ← get;
  match m_allChannels s !! foregroundChannel with
  | None => mret tt
  | Some c =>
    if negb (bool_decide (foregroundChannelInterface = Channel.getInterface c))
    then mret tt
    else if negb (Channel.hasObserver c) then mret tt
    else
      setChannelFocus foregroundChannel NONE;;
      modify (λ s', set_activeChannels
        (set_erase (ChannelPtrComparator (m_allChannels s')) foregroundChannel
           (m_activeChannels s')) s');;
      foregroundHighestPriorityActiveChannel;;
      notifyActivityTracker
  end.

(** The first loop of [stopAllActivitiesHelper]: it erases from the active
    set every captured channel whose interface is still the captured one and
    collects it in [channelsToClear], a set of pointers; the order in which
    the channels were collected stands for the order of that set. *)
Definition stopAll_scan (all : gmap string Channel.t)
    (acc : list Handle * list Handle) (channelAndInterface : Handle * string)
    : list Handle * list Handle :=
  match all !! channelAndInterface.1 with
  | None => acc
  | Some c =>
    if bool_decide (Channel.getInterface c = channelAndInterface.2) then
      (set_erase (ChannelPtrComparator all) channelAndInterface.1 acc.1,
       if decide (channelAndInterface.1 ∈ acc.2) then acc.2
       else acc.2 ++ [channelAndInterface.1])
    else acc
  end.

Definition stopAllActivitiesHelper (channelsOwnersMap : list (Handle * string))
    : M unit :=
  s ← get;
  let scanned :=
    foldl (stopAll_scan (m_allChannels s)) (m_activeChannels s, [])
      channelsOwnersMap in
  modify (set_activeChannels scanned.1);;
  for_each scanned.2 (λ channel, setChannelFocus channel NONE);;
  foregroundHighestPriorityActiveChannel;;
  notifyActivityTracker.

Definition runTask (t : Task) : M unit :=
  match t with
  | AcquireTask ch o i => acquireChannelHelper ch o i
  | ReleaseTask ch o p n => releaseChannelHelper ch o p n
  | StopForegroundTask ch i => stopForegroundActivityHelper ch i
  | StopAllTask owners => stopAllActivitiesHelper owners
  end.

(** ** The executor

    Modelled from the spec: the executor (its class is not among the
    sources) is a queue drained by one worker, one task at a time; [submit]
    appends at the tail, [submitToFront] inserts ahead of every task that has
    not started. *)
Definition submit (t : Task) : M unit :=
  modify (λ s, set_executor (m_executor s ++ [t]) s).

Definition submitToFront (t : Task) : M unit :=
  modify (λ s, set_executor (t :: m_executor s) s).

(** The worker takes the task at the head of the queue and runs it. *)
Definition worker_step (s : FocusManager) : option (FocusManager * list Event) :=
  match m_executor s with
  | [] => None
  | t :: q =>
    let r := runTask t (set_executor q s) in Some (final r, trace r)
  end.

(** ** The public operations (lines 55-139) *)

Definition acquireChannel (channelName : string)
    (channelObserver : option ChannelObserver) (interface : string) : M bool :=
  s ← get;
  match getChannel s channelName with
  | None => mret false
  | Some channelToAcquire =>
    submit (AcquireTask channelToAcquire channelObserver interface);;
    mret true
  end.

(** The future returned by [releaseChannel] is identified with the promise
    it was taken from; [releaseChannelSuccess] is the promise object the call
    allocates. *)
Definition releaseChannel (channelName : string)
    (channelObserver : option ChannelObserver)
    (releaseChannelSuccess : Promise) : M Promise :=
  s ← get;
  match getChannel s channelName with
  | None =>
    emit [PromiseSetValue releaseChannelSuccess false];;
    mret releaseChannelSuccess
  | Some channelToRelease =>
    submit (ReleaseTask channelToRelease channelObserver
              releaseChannelSuccess channelName);;
    mret releaseChannelSuccess
  end.

Definition interfaceOf (s : FocusManager) (channel : Handle) : string :=
  match m_allChannels s !! channel with
  | Some c => Channel.getInterface c
  | None => ""
  end.

Definition stopForegroundActivity : M unit :=
  s ← get;
  match getHighestPriorityActiveChannelLocked s with
  | None => mret tt
  | Some foregroundChannel =>
    let foregroundChannelInterface := interfaceOf s foregroundChannel in
    submitToFront (StopForegroundTask foregroundChannel foregroundChannelInterface)
  end.

(** The capture of [stopAllActivities] has the type
    [ChannelsToInterfaceNamesMap], declared in FocusManager.h, which is not
    among the sources; the code uses it as a map from channel pointers to
    interface names. Such a map is iterated in the order of its keys, the
    addresses of the channel objects, not in the order of the priorities.
    The addresses are taken as a parameter, a ranking [address] of the
    handles; [capture_insert] is the map's [insert] on the sequence of its
    entries, which leaves the map alone when the key is present. *)
Fixpoint capture_insert (lt : Handle → Handle → bool) (entry : Handle * string)
    (capture : list (Handle * string)) : list (Handle * string) :=
  match capture with
  | [] => [entry]
  | e :: capture' =>
    if lt entry.1 e.1 then entry :: e :: capture'
    else if lt e.1 entry.1 then e :: capture_insert lt entry capture'
    else e :: capture'
  end.

Definition pointer_lt (address : Handle → N) (a b : Handle) : bool :=
  bool_decide (address a < address b)%N.

Definition stopAllActivities (address : Handle → N) : M unit :=
  s ← get;
  match m_activeChannels s with
  | [] => mret tt
  | _ =>
    let channelOwnersCapture :=
      foldl (λ capture channel,
               capture_insert (pointer_lt address)
                 (channel, interfaceOf s channel) capture)
            [] (m_activeChannels s) in
    submitToFront (StopAllTask channelOwnersCapture)
  end.

Definition addObserver (observer : FocusManagerObserver) : M unit :=
  modify (λ s, set_observers ({[observer]} ∪ m_observers s) s).

Definition removeObserver (observer : FocusManagerObserver) : M unit :=
  modify (λ s, set_observers (m_observers s ∖ {[observer]}) s).

(** * Vocabulary of the statements *)

(** ** Views of the registry

    The arbitration only reads a channel's priority and focus; both are
    exposed as total functions of the handle, with the value of an absent
    channel for a key that is not registered. *)

Definition registered (all : gmap string Channel.t) (h : Handle) : Prop :=
  is_Some (all !! h).

Definition prio (all : gmap string Channel.t) (h : Handle) : N :=
  from_option Channel.priority 0%N (all !! h).

Definition focus (all : gmap string Channel.t) (h : Handle) : FocusState :=
  from_option Channel.focusState NONE (all !! h).

(** The focus of the channel behind a handle, if there is one. *)
Definition focus_at (all : gmap string Channel.t) (h : Handle) : option FocusState :=
  Channel.focusState <$> all !! h.

Definition focusOf (s : FocusManager) (h : Handle) : option FocusState :=
  focus_at (m_allChannels s) h.

(** The handles of the channels whose focus is [f]. *)
Definition channels_with_focus (s : FocusManager) (f : FocusState) : list Handle :=
  (filter (λ kc, Channel.focusState kc.2 = f) (map_to_list (m_allChannels s))).*1.

(** Two registries with the same keys and the same priorities. *)
Definition same_statics (all all' : gmap string Channel.t) : Prop :=
  ∀ h, (registered all' h ↔ registered all h) ∧ prio all' h = prio all h.

(** ** Views of a trace *)

(** The records pushed onto the pending batch, the batches handed to the
    activity tracker, and the values given to promises, in the course of a
    trace. *)
Definition pushed (tr : list Event) : list ActivityRecord :=
  omap (λ e, match e with ActivityPushBack r => Some r | _ => None end) tr.

Definition delivered (tr : list Event) : list (list ActivityRecord) :=
  omap (λ e, match e with NotifyOfActivityUpdates _ b => Some b | _ => None end) tr.

Definition resolved (tr : list Event) : list (Promise * bool) :=
  omap (λ e, match e with PromiseSetValue p v => Some (p, v) | _ => None end) tr.

(** A computation that only pushes records: the batch grows by what the trace
    shows, and nothing is delivered. *)
Definition batching {A} (m : M A) (s : FocusManager) : Prop :=
  delivered (m s).2 = [] ∧
  m_activityUpdates (m s).1.2 = m_activityUpdates s ++ pushed (m s).2.

(** A computation whose every delivery carries the batch it started with
    followed by all the records of its own trace. *)
Definition flushing {A} (m : M A) (s : FocusManager) : Prop :=
  ∀ b, b ∈ delivered (m s).2 → b = m_activityUpdates s ++ pushed (m s).2.

(** ** The registry a task leaves behind

    Closed forms of [m_allChannels] after each task; the lemmas named
    [..._final] prove that the tasks compute them. *)

(** The channel [Channel::setFocus] leaves behind. *)
Definition withFocus (f : FocusState) (c : Channel.t) : Channel.t :=
  (Channel.setFocus c f).1.2.

(** The first steps of the acquire task: the target is put to NONE, gets its
    interface name and its observer. *)
Definition acquired (T : Handle) (o : option ChannelObserver) (i : string)
    (all : gmap string Channel.t) : gmap string Channel.t :=
  alter (λ c, Channel.setObserver c o) T
    (alter (λ c, Channel.setInterface c i) T (alter (withFocus NONE) T all)).

Definition acquire_channels (T : Handle) (o : option ChannelObserver)
    (i : string) (all : gmap string Channel.t) (active : list Handle)
    : gmap string Channel.t :=
  match head active with
  | None => alter (withFocus FOREGROUND) T (acquired T o i all)
  | Some fg =>
    if decide (fg = T) then alter (withFocus FOREGROUND) T (acquired T o i all)
    else if ChannelPtrComparator all T fg then
      alter (withFocus FOREGROUND) T
        (alter (withFocus BACKGROUND) fg (acquired T o i all))
    else alter (withFocus BACKGROUND) T (acquired T o i all)
  end.

(** The map left by [foregroundHighestPriorityActiveChannel]. *)
Definition promote (active : list Handle) (all : gmap string Channel.t)
    : gmap string Channel.t :=
  match head active with
  | Some h => alter (withFocus FOREGROUND) h all
  | None => all
  end.

Definition released (T : Handle) (all : gmap string Channel.t)
    (active : list Handle) : gmap string Channel.t :=
  if bool_decide (head active = Some T) then
    promote (set_erase (ChannelPtrComparator all) T active)
      (alter (withFocus NONE) T all)
  else alter (withFocus NONE) T all.

Definition clear_all (clr : list Handle) (all : gmap string Channel.t)
    : gmap string Channel.t :=
  foldl (λ m h, alter (withFocus NONE) h m) all clr.

Definition stopAll_scanned (all : gmap string Channel.t) (active : list Handle)
    (owners : list (Handle * string)) : list Handle * list Handle :=
  foldl (stopAll_scan all) (active, []) owners.

(** ** The invariant of the arbitration (I1 to I3 of the data model) *)

(** The focus the data model assigns to a handle, given the active set: the
    first element is FOREGROUND, the other members are BACKGROUND, every
    other channel is NONE. *)
Definition expected (active : list Handle) (h : Handle) : FocusState :=
  if decide (head active = Some h) then FOREGROUND
  else if decide (h ∈ active) then BACKGROUND
  else NONE.

(** A list that represents an ordered set: its elements lie in [D] and their
    keys increase strictly. *)
Definition wf_set (D : Handle → Prop) (k : Handle → N) (l : list Handle) : Prop :=
  Forall D l ∧ StronglySorted (λ a b, k a < k b)%N l.

(** I1: registered channels have distinct priorities (their names are the
    keys of the map). I2 and I3: the active set holds registered channels in
    the order of their priority values, and every channel has the focus the
    active set assigns to it. *)
Record Inv (all : gmap string Channel.t) (active : list Handle) : Prop := {
  inv_priorities : ∀ a b,
    registered all a → registered all b → prio all a = prio all b → a = b;
  inv_active : wf_set (registered all) (prio all) active;
  inv_focus : ∀ h, focus all h = expected active h
}.

(** The property the constructor's loop maintains: every channel is stored
    under its own name, is freshly built, and no two share a priority. *)
Definition fresh_registry (all : gmap string Channel.t) : Prop :=
  (∀ h c, all !! h = Some c → c = Channel.new h (Channel.priority c)) ∧
  (∀ a b ca cb, all !! a = Some ca → all !! b = Some cb →
     Channel.priority ca = Channel.priority cb → a = b).

(** ** Reachable states *)

(** Every handle captured by a task is a key of the registry. *)
Definition task_registered (all : gmap string Channel.t) (t : Task) : Prop :=
  match t with
  | AcquireTask h _ _ => registered all h
  | ReleaseTask h _ _ _ => registered all h
  | StopForegroundTask h _ => registered all h
  | StopAllTask owners => Forall (λ p, registered all p.1) owners
  end.

(** The states of a manager: it is constructed, callers submit tasks to
    either lane, observers come and go, and the worker runs the task at the
    head of the queue, one task at a time. A submitted task may carry any
    registered handles and any interface names: this covers the tasks the
    public operations submit (lemmas [reachable_acquireChannel] and the
    like) and also a stop request whose capture was taken while another task
    was running. *)
Inductive reachable : FocusManager → Prop :=
| reachable_new configs tracker :
    reachable (FocusManager_new configs tracker)
| reachable_submit s t :
    reachable s → task_registered (m_allChannels s) t →
    reachable (submit t s).1.2
| reachable_submitToFront s t :
    reachable s → task_registered (m_allChannels s) t →
    reachable (submitToFront t s).1.2
| reachable_addObserver s o :
    reachable s → reachable (addObserver o s).1.2
| reachable_removeObserver s o :
    reachable s → reachable (removeObserver o s).1.2
| reachable_worker s s' tr :
    reachable s → worker_step s = Some (s', tr) → reachable s'.

Record system_inv (s : FocusManager) : Prop := {
  sys_arbitration : Inv (m_allChannels s) (m_activeChannels s);
  sys_queue : Forall (task_registered (m_allChannels s)) (m_executor s);
  sys_batch : m_activityUpdates s = []
}.

(** ** Construction, in the words of the specification *)

(** Following the specification (section 4.2): going through the list in
    order, an entry whose name or whose priority already occurs among the
    entries kept so far is dropped; every other entry is kept. *)
Fixpoint retained_entries (kept configs : list ChannelConfiguration)
    : list ChannelConfiguration :=
  match configs with
  | [] => kept
  | config :: rest =>
    if bool_decide (cfg_name config ∈ cfg_name <$> kept
                    ∨ cfg_priority config ∈ cfg_priority <$> kept)
    then retained_entries kept rest
    else retained_entries (kept ++ [config]) rest
  end.

(** The registry holding a fresh channel for each of the given entries. *)
Definition registry_of (entries : list ChannelConfiguration)
    : gmap string Channel.t :=
  list_to_map
    ((λ config, (cfg_name config,
                 Channel.new (cfg_name config) (cfg_priority config)))
       <$> entries).

(** ** A running example: the scenario of section 8 *)

Definition demo_configs : list ChannelConfiguration :=
  [mkChannelConfiguration "Dialog" 100; mkChannelConfiguration "Content" 400].

Definition demo_new : FocusManager := FocusManager_new demo_configs (Some 7).

(** Content acquired by observer 1. *)
Definition demo_content : FocusManager :=
  final (acquireChannelHelper "Content" (Some 1) "ifaceC" demo_new).

(** Then Dialog acquired by observer 2: Dialog is in FOREGROUND, Content in
    BACKGROUND. *)
Definition demo_both : FocusManager :=
  final (acquireChannelHelper "Dialog" (Some 2) "ifaceD" demo_content).

(** ** Further views, for the properties of the last part *)



(** The capture [stopAllActivities] takes of the active channels. *)
Definition owners_capture (address : Handle → N) (s : FocusManager)
    : list (Handle * string) :=
  foldl (λ capture channel,
           capture_insert (pointer_lt address)
             (channel, interfaceOf s channel) capture)
        [] (m_activeChannels s).

(** All but the queue of the first manager is as in the second. *)
Definition same_but_queue (s s' : FocusManager) : Prop :=
  m_allChannels s' = m_allChannels s ∧
  m_activeChannels s' = m_activeChannels s ∧
  m_observers s' = m_observers s ∧
  m_activityTracker s' = m_activityTracker s ∧
  m_activityUpdates s' = m_activityUpdates s.

(** A captured entry for [h] whose interface name is still the one of [h]:
    the entries the stop-all task acts upon. *)
Definition still_owned (all : gmap string Channel.t)
    (owners : list (Handle * string)) (h : Handle) : Prop :=
  ∃ c, all !! h = Some c ∧ (h, Channel.getInterface c) ∈ owners.

(** Whether a task gets past its guards: the ownership test of a release,
    the two tests of a stop-foreground. *)
Definition task_proceeds (s : FocusManager) (t : Task) : bool :=
  match t with
  | AcquireTask _ _ _ => true
  | ReleaseTask h o _ _ =>
    match m_allChannels s !! h with
    | Some c => Channel.doesObserverOwnChannel c o
    | None => false
    end
  | StopForegroundTask h i =>
    match m_allChannels s !! h with
    | Some c => bool_decide (i = Channel.getInterface c) && Channel.hasObserver c
    | None => false
    end
  | StopAllTask _ => true
  end.


(** A computation that keeps the tracker and calls it [n] times if there is
    one. *)
Definition tracker_calls (n : nat) {A} (m : M A) (s : FocusManager) : Prop :=
  m_activityTracker (m s).1.2 = m_activityTracker s ∧
  length (delivered (m s).2) = if m_activityTracker s then n else 0.

(** What a task never changes of a channel. *)
Definition statics_of (c : Channel.t) : string * N :=
  (Channel.name c, Channel.priority c).

(** * Lemmas on the views of the registry *)

Lemma withFocus_focusState f c : Channel.focusState (withFocus f c) = f.
Proof.
  unfold withFocus, Channel.setFocus.
  destruct (decide (f = Channel.focusState c)); simpl; congruence.
Qed.

Lemma withFocus_priority f c : Channel.priority (withFocus f c) = Channel.priority c.
Proof.
  unfold withFocus, Channel.setFocus.
  destruct (decide (f = Channel.focusState c)); reflexivity.
Qed.

Lemma withFocus_same c : withFocus (Channel.focusState c) c = c.
Proof.
  unfold withFocus, Channel.setFocus.
  destruct (decide _) as [_|Hne]; [reflexivity | congruence].
Qed.

Lemma registered_alter g x (all : gmap string Channel.t) h :
  registered (alter g x all) h ↔ registered all h.
Proof. unfold registered. apply lookup_alter_is_Some. Qed.

Lemma prio_alter g x (all : gmap string Channel.t) h :
  (∀ c, Channel.priority (g c) = Channel.priority c) →
  prio (alter g x all) h = prio all h.
Proof.
  intros Hg. unfold prio. rewrite lookup_alter.
  destruct (decide (x = h)) as [->|]; [|reflexivity].
  destruct (all !! h); simpl; auto.
Qed.

Lemma focus_alter_keep g x (all : gmap string Channel.t) h :
  (∀ c, Channel.focusState (g c) = Channel.focusState c) →
  focus (alter g x all) h = focus all h.
Proof.
  intros Hg. unfold focus. rewrite lookup_alter.
  destruct (decide (x = h)) as [->|]; [|reflexivity].
  destruct (all !! h); simpl; auto.
Qed.

Lemma focus_alter_withFocus f x (all : gmap string Channel.t) h :
  registered all x →
  focus (alter (withFocus f) x all) h = if decide (x = h) then f else focus all h.
Proof.
  intros [c Hc]. unfold focus. rewrite lookup_alter.
  destruct (decide (x = h)) as [->|]; [|reflexivity].
  rewrite Hc. simpl. apply withFocus_focusState.
Qed.

Lemma comparator_prio (all : gmap string Channel.t) a b :
  registered all a → registered all b →
  ChannelPtrComparator all a b = bool_decide (prio all a < prio all b)%N.
Proof.
  intros [ca Ha] [cb Hb]. unfold ChannelPtrComparator, prio.
  rewrite Ha, Hb. reflexivity.
Qed.

Lemma comparator_alter g x (all : gmap string Channel.t) a b :
  (∀ c, Channel.priority (g c) = Channel.priority c) →
  ChannelPtrComparator (alter g x all) a b = ChannelPtrComparator all a b.
Proof.
  intros Hg.
  assert (Hp : ∀ h, Channel.priority <$> alter g x all !! h
                    = Channel.priority <$> all !! h).
  { intros h. rewrite lookup_alter. case_decide; [subst|done].
    destruct (all !! h); simpl; by rewrite ?Hg. }
  unfold ChannelPtrComparator, Channel.gt.
  pose proof (Hp a) as Ha. pose proof (Hp b) as Hb.
  destruct (alter g x all !! a) as [ca'|], (all !! a) as [ca|];
    simpl in Ha; try discriminate Ha; try reflexivity;
    destruct (alter g x all !! b) as [cb'|], (all !! b) as [cb|];
    simpl in Hb; try discriminate Hb; try reflexivity.
  injection Ha as Ha. injection Hb as Hb. rewrite Ha, Hb. reflexivity.
Qed.

Lemma set_insert_ext lt lt' x l :
  (∀ a b, lt a b = lt' a b) → set_insert lt x l = set_insert lt' x l.
Proof.
  intros H. induction l as [|y l IH]; simpl; [reflexivity|].
  rewrite !H, IH. reflexivity.
Qed.

Lemma set_erase_ext lt lt' x l :
  (∀ a b, lt a b = lt' a b) → set_erase lt x l = set_erase lt' x l.
Proof.
  intros H. induction l as [|y l IH]; simpl; [reflexivity|].
  rewrite !H, IH. reflexivity.
Qed.

Lemma expected_FG l h : head l = Some h → expected l h = FOREGROUND.
Proof. intros H. unfold expected. rewrite decide_True by done. done. Qed.

Lemma expected_NONE l h : h ∉ l → expected l h = NONE.
Proof.
  intros H. unfold expected.
  rewrite decide_False.
  - rewrite decide_False by done. done.
  - intros Hh. apply H. by apply head_Some_elem_of.
Qed.

Lemma expected_FG_inv l h : expected l h = FOREGROUND → head l = Some h.
Proof. unfold expected. repeat case_decide; congruence. Qed.

(** ** The ordered set, for a comparator given by an injective key *)

Section ordered_set.
Variable D : Handle → Prop.
Variable k : Handle → N.
Variable lt : Handle → Handle → bool.
Hypothesis lt_spec : ∀ a b, D a → D b → lt a b = bool_decide (k a < k b)%N.
Hypothesis k_inj : ∀ a b, D a → D b → k a = k b → a = b.

Lemma wf_set_nil : wf_set D k [].
Proof. split; constructor. Qed.

Lemma wf_set_cons_inv y l :
  wf_set D k (y :: l) → D y ∧ wf_set D k l ∧ Forall (λ z, k y < k z)%N l.
Proof.
  intros [Hd Hs]. inversion Hd; subst. inversion Hs; subst.
  repeat split; assumption.
Qed.

Lemma wf_set_cons y l :
  D y → wf_set D k l → Forall (λ z, k y < k z)%N l → wf_set D k (y :: l).
Proof.
  intros Hy [Hd Hs] Hlt. split; constructor; assumption.
Qed.

Lemma head_min l h :
  wf_set D k l → head l = Some h ↔ h ∈ l ∧ ∀ y, y ∈ l → (k h ≤ k y)%N.
Proof.
  intros Hwf. destruct l as [|x l]; simpl.
  - split; [discriminate|]. intros [H _]. by apply elem_of_nil in H.
  - apply wf_set_cons_inv in Hwf as (Hx & Hl & Hlt).
    rewrite Forall_forall in Hlt. split.
    + intros [= ->]. split; [left|].
      intros y [->|Hy]%elem_of_cons; [lia|]. apply Hlt in Hy. lia.
    + intros [[->|Hin]%elem_of_cons Hmin]; [done|].
      specialize (Hmin x (list_elem_of_here _ _)).
      apply Hlt in Hin. lia.
Qed.

Lemma set_insert_elem x l h :
  wf_set D k l → D x → h ∈ set_insert lt x l ↔ h = x ∨ h ∈ l.
Proof.
  intros Hwf Hx. induction l as [|y l IH]; simpl.
  - rewrite list_elem_of_singleton, elem_of_nil. tauto.
  - apply wf_set_cons_inv in Hwf as (Hy & Hl & Hlt).
    rewrite (lt_spec x y), (lt_spec y x) by assumption.
    case_bool_decide as Hxy; [rewrite !elem_of_cons; tauto|].
    case_bool_decide as Hyx.
    + rewrite !elem_of_cons, IH by assumption. tauto.
    + assert (x = y) as -> by (apply k_inj; [done..|lia]).
      rewrite !elem_of_cons. tauto.
Qed.

Lemma set_insert_wf x l : wf_set D k l → D x → wf_set D k (set_insert lt x l).
Proof.
  intros Hwf Hx. induction l as [|y l IH]; simpl.
  - apply wf_set_cons; [done|apply wf_set_nil|constructor].
  - pose proof Hwf as Hwf0.
    apply wf_set_cons_inv in Hwf as (Hy & Hl & Hlt).
    rewrite (lt_spec x y), (lt_spec y x) by assumption.
    case_bool_decide as Hxy.
    { apply wf_set_cons; [done..|].
      constructor; [done|]. eapply Forall_impl; [exact Hlt|].
      simpl. intros; lia. }
    case_bool_decide as Hyx; [|assumption].
    apply wf_set_cons; [done|by apply IH|].
    rewrite Forall_forall. intros z Hz.
    apply set_insert_elem in Hz as [->|Hz]; [done| |done..].
    rewrite Forall_forall in Hlt. by apply Hlt.
Qed.

Lemma set_erase_elem x l h :
  wf_set D k l → D x → h ∈ set_erase lt x l ↔ h ∈ l ∧ h ≠ x.
Proof.
  intros Hwf Hx. induction l as [|y l IH]; simpl.
  - rewrite elem_of_nil. tauto.
  - apply wf_set_cons_inv in Hwf as (Hy & Hl & Hlt).
    rewrite Forall_forall in Hlt.
    rewrite (lt_spec x y), (lt_spec y x) by assumption.
    case_bool_decide as Hyx.
    { rewrite !elem_of_cons, IH by assumption.
      split; [|tauto]. intros [->|[? ?]]; [|tauto].
      split; [tauto|]. intros ->. lia. }
    case_bool_decide as Hxy.
    + rewrite !elem_of_cons. split; [|tauto].
      intros [->|Hin]; (split; [tauto|]); intros ->; [lia|].
      apply Hlt in Hin. lia.
    + assert (x = y) as -> by (apply k_inj; [done..|lia]).
      rewrite !elem_of_cons. split.
      * intros Hin. split; [tauto|]. intros ->. apply Hlt in Hin. lia.
      * intros [[->|?] ?]; done.
Qed.

Lemma set_erase_wf x l : wf_set D k l → D x → wf_set D k (set_erase lt x l).
Proof.
  intros Hwf Hx. induction l as [|y l IH]; simpl; [done|].
  pose proof Hwf as Hwf0.
  apply wf_set_cons_inv in Hwf as (Hy & Hl & Hlt).
  rewrite (lt_spec x y), (lt_spec y x) by assumption.
  case_bool_decide as Hyx.
  { apply wf_set_cons; [done|by apply IH|].
    rewrite Forall_forall. intros z Hz.
    apply set_erase_elem in Hz as [Hz _]; [|done..].
    rewrite Forall_forall in Hlt. by apply Hlt. }
  case_bool_decide as Hxy; assumption.
Qed.

(** Two well-formed sets with the same members are the same list. *)
Lemma wf_set_head_subset l l' h :
  wf_set D k l → wf_set D k l' → (∀ y, y ∈ l' → y ∈ l) →
  head l = Some h → h ∈ l' → head l' = Some h.
Proof.
  intros Hl Hl' Hsub Hh Hin.
  apply (head_min l h Hl) in Hh as [_ Hmin].
  apply (head_min l' h Hl'). split; [done|]. auto.
Qed.

Lemma set_erase_head x l : D x → set_erase lt x (x :: l) = l.
Proof.
  intros Hx. simpl. rewrite (lt_spec x x) by assumption.
  rewrite bool_decide_false by lia. reflexivity.
Qed.

Lemma set_erase_insert x l :
  wf_set D k l → D x → x ∉ l → set_erase lt x (set_insert lt x l) = l.
Proof.
  intros Hwf Hx Hnot. induction l as [|y l IH]; simpl.
  - rewrite (lt_spec x x) by assumption.
    rewrite bool_decide_false by lia. reflexivity.
  - apply wf_set_cons_inv in Hwf as (Hy & Hl & Hlt).
    apply not_elem_of_cons in Hnot as [Hne Hnot].
    rewrite (lt_spec x y), (lt_spec y x) by assumption.
    case_bool_decide as Hxy.
    { apply set_erase_head. assumption. }
    case_bool_decide as Hyx.
    + simpl. rewrite (lt_spec y x) by assumption.
      rewrite bool_decide_true by assumption. f_equal. by apply IH.
    + exfalso. apply Hne. apply k_inj; [done..|lia].
Qed.

End ordered_set.

(** * What the notification primitives do to the manager *)

Lemma pushed_app tr1 tr2 : pushed (tr1 ++ tr2) = pushed tr1 ++ pushed tr2.
Proof. apply omap_app. Qed.

Lemma delivered_app tr1 tr2 : delivered (tr1 ++ tr2) = delivered tr1 ++ delivered tr2.
Proof. apply omap_app. Qed.

Lemma pushed_manager_callbacks (os : list FocusManagerObserver) n f :
  pushed (map (λ o, ManagerOnFocusChanged o n f) os) = [].
Proof. induction os; simpl; auto. Qed.

Lemma delivered_manager_callbacks (os : list FocusManagerObserver) n f :
  delivered (map (λ o, ManagerOnFocusChanged o n f) os) = [].
Proof. induction os; simpl; auto. Qed.

Lemma setFocus_pushed c f : pushed (Channel.setFocus c f).2 = [].
Proof.
  unfold Channel.setFocus. case_decide; [done|]. simpl.
  destruct (Channel.observer c); done.
Qed.

Lemma setFocus_delivered c f : delivered (Channel.setFocus c f).2 = [].
Proof.
  unfold Channel.setFocus. case_decide; [done|]. simpl.
  destruct (Channel.observer c); done.
Qed.

Lemma set_fields_id s :
  set_activityUpdates (m_activityUpdates s) (set_allChannels (m_allChannels s) s) = s.
Proof. destruct s; reflexivity. Qed.

Lemma insert_as_alter (all : gmap string Channel.t) h c g :
  all !! h = Some c → <[h := g c]> all = alter g h all.
Proof.
  intros Hc. apply map_eq. intros j.
  rewrite lookup_insert, lookup_alter.
  case_decide; [subst; by rewrite Hc|done].
Qed.

Lemma alter_withFocus_same (all : gmap string Channel.t) h c :
  all !! h = Some c → alter (withFocus (Channel.focusState c)) h all = all.
Proof.
  intros Hc. rewrite <- (insert_as_alter all h c) by done.
  rewrite withFocus_same. by apply insert_id.
Qed.

Lemma setChannelFocus_dangling h f s :
  m_allChannels s !! h = None → setChannelFocus h f s = (tt, s, []).
Proof.
  intros Hc. unfold setChannelFocus, mbind, M_bind, get. simpl.
  rewrite Hc. reflexivity.
Qed.

Lemma setChannelFocus_unchanged h f s c :
  m_allChannels s !! h = Some c → f = Channel.focusState c →
  setChannelFocus h f s = (tt, s, []).
Proof.
  intros Hc Hf. unfold setChannelFocus, mbind, M_bind, get. simpl.
  rewrite Hc. unfold Channel.setFocus. rewrite decide_True by done.
  reflexivity.
Qed.

Lemma setChannelFocus_changed h f s c :
  m_allChannels s !! h = Some c → f ≠ Channel.focusState c →
  setChannelFocus h f s =
  (tt,
   set_activityUpdates (m_activityUpdates s ++ [Channel.getState (withFocus f c)])
     (set_allChannels (<[h := withFocus f c]> (m_allChannels s)) s),
   (Channel.setFocus c f).2
   ++ map (λ o, ManagerOnFocusChanged o (Channel.name c) f)
          (elements (m_observers s))
   ++ [ActivityPushBack (Channel.getState (withFocus f c))]).
Proof.
  intros Hc Hf. unfold setChannelFocus, mbind, M_bind, get. simpl.
  rewrite Hc. unfold withFocus, Channel.setFocus.
  rewrite decide_False by done. reflexivity.
Qed.

Lemma setChannelFocus_final h f s :
  (setChannelFocus h f s).1.2 =
  set_activityUpdates (m_activityUpdates s ++ pushed (setChannelFocus h f s).2)
    (set_allChannels (alter (withFocus f) h (m_allChannels s)) s).
Proof.
  destruct (m_allChannels s !! h) as [c|] eqn:Hc.
  - destruct (decide (f = Channel.focusState c)) as [Hf|Hf].
    + rewrite (setChannelFocus_unchanged h f s c) by done. simpl.
      rewrite app_nil_r. subst f. rewrite alter_withFocus_same by done.
      symmetry. apply set_fields_id.
    + rewrite (setChannelFocus_changed h f s c) by done. simpl.
      rewrite !pushed_app, pushed_manager_callbacks, setFocus_pushed. simpl.
      by rewrite (insert_as_alter _ h c (withFocus f)).
  - rewrite setChannelFocus_dangling by done. simpl.
    rewrite app_nil_r.
    assert (alter (withFocus f) h (m_allChannels s) = m_allChannels s) as ->.
    { apply map_eq. intros j. rewrite lookup_alter. case_decide; [subst|done].
      by rewrite Hc. }
    symmetry. apply set_fields_id.
Qed.

Lemma setChannelFocus_delivered h f s : delivered (setChannelFocus h f s).2 = [].
Proof.
  destruct (m_allChannels s !! h) as [c|] eqn:Hc.
  - destruct (decide (f = Channel.focusState c)) as [Hf|Hf].
    + by rewrite (setChannelFocus_unchanged h f s c).
    + rewrite (setChannelFocus_changed h f s c) by done. simpl.
      by rewrite !delivered_app, delivered_manager_callbacks, setFocus_delivered.
  - by rewrite setChannelFocus_dangling.
Qed.

Opaque setChannelFocus.

Lemma notifyActivityTracker_run s :
  notifyActivityTracker s =
  (tt, set_activityUpdates [] s,
   match m_activityTracker s with
   | Some tracker => [NotifyOfActivityUpdates tracker (m_activityUpdates s)]
   | None => []
   end).
Proof.
  unfold notifyActivityTracker, mbind, M_bind, get, modify. simpl.
  destruct (m_activityTracker s); simpl; by rewrite ?app_nil_r.
Qed.

Lemma foregroundHighest_run s :
  foregroundHighestPriorityActiveChannel s =
  match m_activeChannels s with
  | [] => (tt, s, [])
  | h :: _ => setChannelFocus h FOREGROUND s
  end.
Proof.
  unfold foregroundHighestPriorityActiveChannel, mbind, M_bind, get. simpl.
  unfold getHighestPriorityActiveChannelLocked.
  destruct (m_activeChannels s); simpl; [done|].
  by destruct (setChannelFocus _ _ _) as [[[] ?] ?].
Qed.

Opaque notifyActivityTracker foregroundHighestPriorityActiveChannel.

Lemma comparator_acquired_pre T i (all : gmap string Channel.t) a b :
  ChannelPtrComparator
    (alter (λ c, Channel.setInterface c i) T (alter (withFocus NONE) T all)) a b
  = ChannelPtrComparator all a b.
Proof.
  rewrite comparator_alter by done.
  apply comparator_alter. intros c. apply withFocus_priority.
Qed.

Lemma comparator_acquired T o i (all : gmap string Channel.t) a b :
  ChannelPtrComparator (acquired T o i all) a b = ChannelPtrComparator all a b.
Proof.
  unfold acquired. rewrite comparator_alter by done.
  apply comparator_acquired_pre.
Qed.

Lemma acquireChannelHelper_final T o i s :
  (acquireChannelHelper T o i s).1.2 =
  mkFocusManager
    (acquire_channels T o i (m_allChannels s) (m_activeChannels s))
    (set_insert (ChannelPtrComparator (m_allChannels s)) T (m_activeChannels s))
    (m_observers s) (m_activityTracker s) [] (m_executor s).
Proof.
  destruct s as [all active obs tracker updates exec].
  unfold acquireChannelHelper, mbind, M_bind, get, modify, update_channel.
  cbn. rewrite notifyActivityTracker_run. cbn.
  rewrite !setChannelFocus_final. cbn.
  fold (acquired T o i all).
  rewrite (set_insert_ext _ (ChannelPtrComparator all))
    by apply comparator_acquired_pre.
  unfold acquire_channels.
  destruct active as [|fg r]; cbn.
  { rewrite setChannelFocus_final. reflexivity. }
  rewrite comparator_acquired.
  destruct (decide (fg = T)) as [->|Hne].
  { rewrite setChannelFocus_final. reflexivity. }
  destruct (ChannelPtrComparator all T fg); cbn.
  - rewrite !setChannelFocus_final. reflexivity.
  - rewrite setChannelFocus_final. reflexivity.
Qed.

Lemma foregroundHighest_final s :
  (foregroundHighestPriorityActiveChannel s).1.2 =
  set_activityUpdates
    (m_activityUpdates s ++ pushed (foregroundHighestPriorityActiveChannel s).2)
    (set_allChannels (promote (m_activeChannels s) (m_allChannels s)) s).
Proof.
  rewrite foregroundHighest_run. unfold promote.
  destruct (m_activeChannels s) as [|h r]; simpl.
  - rewrite app_nil_r. symmetry. apply set_fields_id.
  - apply setChannelFocus_final.
Qed.

Lemma foregroundHighest_delivered s :
  delivered (foregroundHighestPriorityActiveChannel s).2 = [].
Proof.
  rewrite foregroundHighest_run.
  destruct (m_activeChannels s); [done|]. apply setChannelFocus_delivered.
Qed.

Lemma releaseChannelHelper_not_owner T o p n s c :
  m_allChannels s !! T = Some c →
  Channel.doesObserverOwnChannel c o = false →
  releaseChannelHelper T o p n s = (tt, s, [PromiseSetValue p false]).
Proof.
  intros Hc Ho. unfold releaseChannelHelper, mbind, M_bind, get. cbn.
  rewrite Hc, Ho. reflexivity.
Qed.

Lemma comparator_cleared T (all : gmap string Channel.t) a b :
  ChannelPtrComparator (alter (withFocus NONE) T all) a b
  = ChannelPtrComparator all a b.
Proof. apply comparator_alter. intros c. apply withFocus_priority. Qed.

Lemma releaseChannelHelper_final T o p n s c :
  m_allChannels s !! T = Some c →
  Channel.doesObserverOwnChannel c o = true →
  (releaseChannelHelper T o p n s).1.2 =
  mkFocusManager
    (released T (m_allChannels s) (m_activeChannels s))
    (set_erase (ChannelPtrComparator (m_allChannels s)) T (m_activeChannels s))
    (m_observers s) (m_activityTracker s) [] (m_executor s).
Proof.
  intros Hc Ho. destruct s as [all active obs tracker updates exec].
  cbn in Hc.
  unfold releaseChannelHelper, mbind, M_bind, get, modify, emit. cbn.
  rewrite Hc, Ho. cbn. rewrite notifyActivityTracker_run. cbn.
  unfold released, isChannelForegroundedLocked,
    getHighestPriorityActiveChannelLocked. cbn.
  assert (Hh : ∀ l : list string, match l with [] => None | h :: _ => Some h end = head l)
    by (by intros []).
  rewrite Hh.
  destruct (bool_decide (head active = Some T)); cbn.
  - rewrite foregroundHighest_final, setChannelFocus_final. cbn.
    reflexivity.
  - rewrite setChannelFocus_final. reflexivity.
Qed.

Lemma stopForegroundActivityHelper_skip F i s c :
  m_allChannels s !! F = Some c →
  i ≠ Channel.getInterface c ∨ Channel.hasObserver c = false →
  stopForegroundActivityHelper F i s = (tt, s, []).
Proof.
  intros Hc Hskip.
  unfold stopForegroundActivityHelper, mbind, M_bind, get. cbn. rewrite Hc.
  destruct Hskip as [Hi|Ho].
  - rewrite bool_decide_false by done. reflexivity.
  - rewrite Ho. by case_bool_decide.
Qed.

Lemma stopForegroundActivityHelper_final F i s c :
  m_allChannels s !! F = Some c →
  i = Channel.getInterface c → Channel.hasObserver c = true →
  (stopForegroundActivityHelper F i s).1.2 =
  mkFocusManager
    (promote (set_erase (ChannelPtrComparator (m_allChannels s)) F (m_activeChannels s))
       (alter (withFocus NONE) F (m_allChannels s)))
    (set_erase (ChannelPtrComparator (m_allChannels s)) F (m_activeChannels s))
    (m_observers s) (m_activityTracker s) [] (m_executor s).
Proof.
  intros Hc Hi Ho. destruct s as [all active obs tracker updates exec].
  cbn in Hc.
  unfold stopForegroundActivityHelper, mbind, M_bind, get, modify. cbn.
  rewrite Hc, Ho, bool_decide_true by done. cbn.
  rewrite notifyActivityTracker_run. cbn.
  rewrite foregroundHighest_final. cbn. rewrite setChannelFocus_final. cbn.
  rewrite (set_erase_ext _ (ChannelPtrComparator all))
    by apply comparator_cleared.
  reflexivity.
Qed.

Lemma for_each_clear_final clr s :
  (for_each clr (λ channel, setChannelFocus channel NONE) s).1.2 =
  set_activityUpdates
    (m_activityUpdates s
     ++ pushed (for_each clr (λ channel, setChannelFocus channel NONE) s).2)
    (set_allChannels (clear_all clr (m_allChannels s)) s).
Proof.
  revert s. induction clr as [|x clr IH]; intros s.
  - cbn. rewrite app_nil_r. symmetry. apply set_fields_id.
  - cbn [for_each]. unfold mbind, M_bind. cbn.
    rewrite IH. rewrite !setChannelFocus_final.
    destruct s; cbn. rewrite pushed_app, app_assoc. reflexivity.
Qed.

Lemma for_each_clear_delivered clr s :
  delivered (for_each clr (λ channel, setChannelFocus channel NONE) s).2 = [].
Proof.
  revert s. induction clr as [|x clr IH]; intros s; [done|].
  cbn [for_each]. unfold mbind, M_bind. cbn.
  by rewrite delivered_app, setChannelFocus_delivered, IH.
Qed.

Lemma stopAllActivitiesHelper_final owners s :
  (stopAllActivitiesHelper owners s).1.2 =
  let scanned := stopAll_scanned (m_allChannels s) (m_activeChannels s) owners in
  mkFocusManager
    (promote scanned.1 (clear_all scanned.2 (m_allChannels s)))
    scanned.1 (m_observers s) (m_activityTracker s) [] (m_executor s).
Proof.
  destruct s as [all active obs tracker updates exec].
  unfold stopAllActivitiesHelper, mbind, M_bind, get, modify. cbn.
  rewrite notifyActivityTracker_run. cbn.
  rewrite foregroundHighest_final. cbn. rewrite for_each_clear_final. cbn.
  reflexivity.
Qed.

(** * The tasks keep the invariant *)

Lemma same_statics_refl all : same_statics all all.
Proof. intros h. done. Qed.

Lemma same_statics_alter g x all all' :
  (∀ c, Channel.priority (g c) = Channel.priority c) →
  same_statics all all' → same_statics all (alter g x all').
Proof.
  intros Hg H h. destruct (H h) as [? ?].
  rewrite registered_alter, prio_alter by done. done.
Qed.

Lemma wf_set_statics all all' l :
  same_statics all all' →
  wf_set (registered all) (prio all) l → wf_set (registered all') (prio all') l.
Proof.
  intros H [Hd Hs]. split.
  - eapply Forall_impl; [exact Hd|]. intros h. by apply H.
  - induction Hs as [|x l Hs IH Hx]; constructor.
    + apply IH. by inversion Hd.
    + eapply Forall_impl; [exact Hx|]. intros y. simpl.
      destruct (H x) as [_ ->], (H y) as [_ ->]. done.
Qed.

Lemma Inv_intro all all' l l' :
  Inv all l → same_statics all all' →
  wf_set (registered all) (prio all) l' →
  (∀ h, focus all' h = expected l' h) →
  Inv all' l'.
Proof.
  intros [Hp _ _] Hst Hwf Hf. split; [|by eapply wf_set_statics|done].
  intros a b Ha Hb Hab. apply Hp.
  - by apply Hst.
  - by apply Hst.
  - destruct (Hst a) as [_ <-], (Hst b) as [_ <-]. done.
Qed.

Lemma same_statics_acquired T o i all : same_statics all (acquired T o i all).
Proof.
  unfold acquired.
  apply same_statics_alter; [done|]. apply same_statics_alter; [done|].
  apply same_statics_alter; [apply withFocus_priority|].
  apply same_statics_refl.
Qed.

Lemma focus_acquired T o i all h :
  registered all T →
  focus (acquired T o i all) h = if decide (T = h) then NONE else focus all h.
Proof.
  intros HT. unfold acquired. rewrite !focus_alter_keep by done.
  by apply focus_alter_withFocus.
Qed.

Lemma same_statics_withFocus f x all all' :
  same_statics all all' → same_statics all (alter (withFocus f) x all').
Proof. apply same_statics_alter. intros c. apply withFocus_priority. Qed.

Lemma set_insert_head D k lt x l :
  (∀ a b, D a → D b → lt a b = bool_decide (k a < k b)%N) →
  D x → set_insert lt x (x :: l) = x :: l.
Proof.
  intros Hlt Hx. simpl. rewrite (Hlt x x) by done.
  by rewrite bool_decide_false by lia.
Qed.

Section arbitration.
Variable all : gmap string Channel.t.
Variable active : list Handle.
Hypothesis HI : Inv all active.

Local Abbreviation lt := (ChannelPtrComparator all).

Lemma lt_prio a b :
  registered all a → registered all b →
  lt a b = bool_decide (prio all a < prio all b)%N.
Proof. apply comparator_prio. Qed.

Lemma Inv_acquire T o i :
  registered all T →
  Inv (acquire_channels T o i all active) (set_insert lt T active).
Proof.
  intros HT. pose proof HI as [Hp Hwf Hf].
  pose proof (same_statics_acquired T o i all) as Hst.
  assert (HT' : registered (acquired T o i all) T) by by apply Hst.
  apply (Inv_intro all _ active); [done| |by eapply set_insert_wf, HT; eauto using lt_prio|].
  - unfold acquire_channels. destruct (head active) as [fg|];
      repeat case_decide; try case_match;
      repeat apply same_statics_withFocus; done.
  - intros h. unfold acquire_channels.
    destruct active as [|F r] eqn:Hact; cbn [head].
    + rewrite focus_alter_withFocus, focus_acquired by done.
      specialize (Hf h). rewrite expected_NONE in Hf by apply not_elem_of_nil.
      unfold expected. cbn.
      repeat case_decide; simplify_eq; try done.
      exfalso. set_solver.
    + apply (wf_set_cons_inv (registered all) (prio all)) in Hwf
        as (HF & Hr & Hlt).
      destruct (decide (F = T)) as [->|Hne].
      { rewrite (set_insert_head (registered all) (prio all)) by eauto using lt_prio.
        rewrite focus_alter_withFocus, focus_acquired by done.
        specialize (Hf h). unfold expected in *. cbn in *.
        repeat case_decide; simplify_eq; done. }
      assert (HF' : registered (acquired T o i all) F) by by apply Hst.
      cbn [set_insert].
      rewrite (comparator_prio all T F), (comparator_prio all F T) by done.
      specialize (Hf h).
      case_bool_decide as HTF.
      * rewrite !focus_alter_withFocus, focus_acquired
          by (rewrite ?registered_alter; done).
        unfold expected in *. cbn in *.
        repeat case_decide; simplify_eq; try done; exfalso; set_solver.
      * assert (prio all F < prio all T)%N as HFT.
        { destruct (decide (prio all F = prio all T)) as [Heq|]; [|lia].
          apply Hp in Heq; done. }
        rewrite bool_decide_true by done.
        rewrite !focus_alter_withFocus, focus_acquired
          by (rewrite ?registered_alter; done).
        pose proof (set_insert_elem (registered all) (prio all) lt
                      lt_prio Hp T r h Hr HT) as Hin.
        unfold expected in *. cbn in *.
        repeat case_decide; simplify_eq; try done; exfalso; set_solver.
Qed.

Lemma same_statics_promote l all' :
  same_statics all all' → same_statics all (promote l all').
Proof.
  intros H. unfold promote. destruct (head l); [|done].
  by apply same_statics_withFocus.
Qed.

(** Removing the channels of [C] from the active set, putting them to NONE
    and promoting the first remaining channel keeps the invariant. *)
Lemma Inv_remove (C : list Handle) l' all' :
  same_statics all all' →
  wf_set (registered all) (prio all) l' →
  (∀ h, h ∈ l' ↔ h ∈ active ∧ h ∉ C) →
  (∀ h, focus all' h = if decide (h ∈ C) then NONE else focus all h) →
  Inv (promote l' all') l'.
Proof.
  intros Hst Hwf Hmem Hfoc. pose proof HI as [Hp Hact Hf].
  apply (Inv_intro all _ active); [done|by apply same_statics_promote|done|].
  intros h. specialize (Hfoc h). specialize (Hf h). rewrite Hf in Hfoc.
  assert (Hhead : head active = Some h → h ∈ l' → head l' = Some h).
  { intros Hh Hin.
    eapply (wf_set_head_subset (registered all) (prio all)); eauto.
    intros y Hy. by apply Hmem in Hy as [? _]. }
  pose proof (Hmem h) as Hmh.
  unfold promote. destruct (head l') as [x|] eqn:Hx.
  - assert (registered all' x) as Hrx.
    { apply Hst. destruct Hwf as [Hd _]. rewrite Forall_forall in Hd.
      apply Hd. by apply head_Some_elem_of. }
    rewrite focus_alter_withFocus by done. rewrite Hfoc.
    unfold expected in *. rewrite Hx.
    pose proof (head_Some_elem_of active h) as Hha.
    repeat case_decide; simplify_eq; try done; exfalso; tauto.
  - rewrite Hfoc. destruct l' as [|? ?]; [|discriminate].
    rewrite (expected_NONE [] h) by apply not_elem_of_nil.
    case_decide; [done|]. apply expected_NONE.
    rewrite elem_of_nil in Hmh. tauto.
Qed.

Lemma focus_alter_clear x (m : gmap string Channel.t) h :
  focus (alter (withFocus NONE) x m) h = if decide (x = h) then NONE else focus m h.
Proof.
  unfold focus. rewrite lookup_alter. case_decide; [subst|done].
  destruct (m !! h); simpl; [apply withFocus_focusState|done].
Qed.

Lemma Inv_stopForeground F :
  registered all F →
  Inv (promote (set_erase lt F active) (alter (withFocus NONE) F all))
      (set_erase lt F active).
Proof.
  intros HF. pose proof HI as [Hp Hact Hf].
  apply (Inv_remove [F]).
  - apply same_statics_withFocus, same_statics_refl.
  - by eapply set_erase_wf; eauto using lt_prio.
  - intros h. rewrite (set_erase_elem (registered all) (prio all) lt)
      by eauto using lt_prio.
    rewrite list_elem_of_singleton. done.
  - intros h. rewrite focus_alter_clear.
    repeat case_decide; simplify_eq; try done; exfalso; set_solver.
Qed.

Lemma promote_foregrounded l (m : gmap string Channel.t) :
  (∀ x, head l = Some x → registered m x ∧ focus m x = FOREGROUND) →
  promote l m = m.
Proof.
  intros H. unfold promote. destruct (head l) as [x|]; [|done].
  destruct (H x eq_refl) as [[c Hc] Hx]. unfold focus in Hx.
  rewrite Hc in Hx. simpl in Hx. rewrite <- Hx.
  by apply alter_withFocus_same.
Qed.

Lemma released_promote T :
  registered all T →
  released T all active =
  promote (set_erase lt T active) (alter (withFocus NONE) T all).
Proof.
  intros HT. pose proof HI as [Hp Hact Hf].
  unfold released. case_bool_decide as Hh; [done|].
  symmetry. apply promote_foregrounded. intros x Hx.
  assert (x ∈ set_erase lt T active) as Hin by by apply head_Some_elem_of.
  apply (set_erase_elem (registered all) (prio all) lt) in Hin
    as [Hin Hne]; eauto using lt_prio.
  destruct Hact as [Hd Hs]. rewrite Forall_forall in Hd.
  split; [by apply registered_alter, Hd|].
  rewrite focus_alter_clear, decide_False by done.
  rewrite Hf. apply expected_FG.
  destruct active as [|F r]; [by apply elem_of_nil in Hin|].
  cbn in Hx |- *.
  assert (registered all F) as HF by (apply Hd; left).
  rewrite (comparator_prio all F T), (comparator_prio all T F) in Hx by done.
  repeat case_bool_decide; simplify_eq/=; try done.
  exfalso. apply Hh. f_equal. apply Hp; [done..|lia].
Qed.

Lemma Inv_release T :
  registered all T →
  Inv (released T all active) (set_erase lt T active).
Proof.
  intros HT. rewrite released_promote by done. by apply Inv_stopForeground.
Qed.

Lemma same_statics_clear_all clr all' :
  same_statics all all' → same_statics all (clear_all clr all').
Proof.
  revert all'. induction clr as [|x clr IH]; intros all' H; [done|].
  change (clear_all (x :: clr) all')
    with (clear_all clr (alter (withFocus NONE) x all')).
  apply IH. by apply same_statics_withFocus.
Qed.

Lemma focus_clear_all clr (m : gmap string Channel.t) h :
  focus (clear_all clr m) h = if decide (h ∈ clr) then NONE else focus m h.
Proof.
  revert m. induction clr as [|x clr IH]; intros m.
  - cbn. rewrite decide_False by apply not_elem_of_nil. done.
  - change (clear_all (x :: clr) m)
      with (clear_all clr (alter (withFocus NONE) x m)).
    rewrite IH, focus_alter_clear.
    repeat case_decide; simplify_eq; try done; exfalso; set_solver.
Qed.

Lemma stopAll_scan_spec owners (acc : list Handle * list Handle) :
  wf_set (registered all) (prio all) acc.1 →
  (∀ h, h ∈ acc.1 ↔ h ∈ active ∧ h ∉ acc.2) →
  let scanned := foldl (stopAll_scan all) acc owners in
  wf_set (registered all) (prio all) scanned.1 ∧
  (∀ h, h ∈ scanned.1 ↔ h ∈ active ∧ h ∉ scanned.2).
Proof.
  pose proof HI as [Hp _ _].
  revert acc. induction owners as [|[x i] owners IH]; intros acc Hwf Hmem.
  - done.
  - cbn [foldl]. apply IH.
    + unfold stopAll_scan. cbn.
      destruct (all !! x) as [c|] eqn:Hc; [|done].
      case_bool_decide; [|done]. cbn.
      eapply set_erase_wf; eauto using comparator_prio. by exists c.
    + intros h. unfold stopAll_scan. cbn.
      destruct (all !! x) as [c|] eqn:Hc; [|apply Hmem].
      case_bool_decide; [|apply Hmem]. cbn.
      rewrite (set_erase_elem (registered all) (prio all))
        by (eauto using comparator_prio; by exists c).
      rewrite Hmem. case_decide; set_solver.
Qed.

Lemma Inv_stopAll owners :
  let scanned := stopAll_scanned all active owners in
  Inv (promote scanned.1 (clear_all scanned.2 all)) scanned.1.
Proof.
  pose proof HI as [Hp Hact Hf]. cbn.
  destruct (stopAll_scan_spec owners (active, [])) as [Hwf Hmem]; [done|set_solver|].
  apply (Inv_remove (stopAll_scanned all active owners).2).
  - apply same_statics_clear_all, same_statics_refl.
  - exact Hwf.
  - exact Hmem.
  - intros h. apply focus_clear_all.
Qed.

End arbitration.

(** * Construction *)

Lemma doesChannelPriorityExist_false (all : gmap string Channel.t) p h c :
  doesChannelPriorityExist all p = false → all !! h = Some c →
  Channel.priority c ≠ p.
Proof.
  intros Hex Hc Hp. unfold doesChannelPriorityExist in Hex.
  apply not_true_iff_false in Hex. apply Hex.
  apply existsb_exists. exists (h, c). split.
  - apply list_elem_of_In. by apply elem_of_map_to_list.
  - simpl. by apply bool_decide_eq_true.
Qed.

Lemma doesChannelPriorityExist_true (all : gmap string Channel.t) p :
  doesChannelPriorityExist all p = true →
  ∃ h c, all !! h = Some c ∧ Channel.priority c = p.
Proof.
  unfold doesChannelPriorityExist. intros Hex.
  apply existsb_exists in Hex as ([h c] & Hin & Hp).
  apply list_elem_of_In, elem_of_map_to_list in Hin.
  apply bool_decide_eq_true in Hp. eauto.
Qed.

Lemma add_configuration_fresh all config :
  fresh_registry all → fresh_registry (add_configuration all config).
Proof.
  intros [Hnew Hinj]. unfold add_configuration, doesChannelNameExist.
  case_bool_decide as Hname; [done|].
  destruct (doesChannelPriorityExist all (cfg_priority config)) eqn:Hprio; [done|].
  assert (all !! cfg_name config = None) as Hnone.
  { destruct (all !! cfg_name config) eqn:E; [|done]. exfalso. apply Hname. eauto. }
  split.
  - intros h c. rewrite lookup_insert. case_decide; [|by apply Hnew].
    intros [= <-]. by subst.
  - intros a b ca cb. rewrite !lookup_insert.
    repeat case_decide; simplify_eq/=; intros; simplify_eq/=; try done.
    + exfalso. by eapply doesChannelPriorityExist_false.
    + exfalso. by eapply doesChannelPriorityExist_false.
    + by eapply Hinj.
Qed.

Lemma foldl_add_configuration_fresh configs all :
  fresh_registry all → fresh_registry (foldl add_configuration all configs).
Proof.
  revert all. induction configs as [|c configs IH]; intros all H; [done|].
  cbn. by apply IH, add_configuration_fresh.
Qed.

Lemma FocusManager_new_fresh configs tracker :
  fresh_registry (m_allChannels (FocusManager_new configs tracker)).
Proof.
  apply foldl_add_configuration_fresh. split.
  - intros h c. by rewrite lookup_empty.
  - intros a b ca cb. by rewrite lookup_empty.
Qed.

Lemma Inv_fresh all : fresh_registry all → Inv all [].
Proof.
  intros [Hnew Hinj]. split.
  - intros a b [ca Ha] [cb Hb]. unfold prio. rewrite Ha, Hb. simpl.
    by apply Hinj.
  - apply wf_set_nil.
  - intros h. rewrite expected_NONE by apply not_elem_of_nil.
    unfold focus. destruct (all !! h) as [c|] eqn:Hc; [|done].
    apply Hnew in Hc. by rewrite Hc.
Qed.

(** * Reachable states *)

Lemma task_registered_statics all all' t :
  same_statics all all' → task_registered all t → task_registered all' t.
Proof.
  intros H. destruct t; simpl; try by apply H.
  intros Hf. eapply Forall_impl; [exact Hf|]. intros p. by apply H.
Qed.

Lemma same_statics_acquire_channels T o i all active :
  same_statics all (acquire_channels T o i all active).
Proof.
  pose proof (same_statics_acquired T o i all).
  unfold acquire_channels. destruct (head active) as [fg|];
    repeat case_decide; try case_match;
    repeat apply same_statics_withFocus; done.
Qed.

Lemma same_statics_released T all active :
  same_statics all (released T all active).
Proof.
  unfold released. case_bool_decide.
  - apply same_statics_promote, same_statics_withFocus, same_statics_refl.
  - apply same_statics_withFocus, same_statics_refl.
Qed.

(** Running a task keeps the registry's keys and priorities, leaves the
    queue and the observers alone, and re-establishes the arbitration
    invariant with an empty batch. *)
Lemma runTask_system_inv t s :
  Inv (m_allChannels s) (m_activeChannels s) →
  m_activityUpdates s = [] →
  task_registered (m_allChannels s) t →
  let s' := (runTask t s).1.2 in
  Inv (m_allChannels s') (m_activeChannels s') ∧
  same_statics (m_allChannels s) (m_allChannels s') ∧
  m_executor s' = m_executor s ∧
  m_activityUpdates s' = [].
Proof.
  intros HI Hb Ht. destruct t as [T o i|T o p n|F i|owners]; cbn in *.
  - rewrite acquireChannelHelper_final. cbn.
    split_and!; [by apply Inv_acquire|apply same_statics_acquire_channels|done..].
  - destruct Ht as [c Hc].
    destruct (Channel.doesObserverOwnChannel c o) eqn:Ho.
    + rewrite (releaseChannelHelper_final T o p n s c) by done. cbn.
      split_and!; [|apply same_statics_released|done..].
      apply Inv_release; [done|by exists c].
    + rewrite (releaseChannelHelper_not_owner T o p n s c) by done. cbn.
      split_and!; [done|apply same_statics_refl|done..].
  - destruct Ht as [c Hc].
    destruct (decide (i = Channel.getInterface c)) as [Hi|Hi];
      [destruct (Channel.hasObserver c) eqn:Ho|].
    + rewrite (stopForegroundActivityHelper_final F i s c) by done. cbn.
      split_and!; [| |done..].
      * apply Inv_stopForeground; [done|by exists c].
      * apply same_statics_promote, same_statics_withFocus, same_statics_refl.
    + rewrite (stopForegroundActivityHelper_skip F i s c) by auto. cbn.
      split_and!; [done|apply same_statics_refl|done..].
    + rewrite (stopForegroundActivityHelper_skip F i s c) by auto. cbn.
      split_and!; [done|apply same_statics_refl|done..].
  - rewrite stopAllActivitiesHelper_final. cbn.
    split_and!; [by apply Inv_stopAll| |done..].
    apply same_statics_promote, same_statics_clear_all, same_statics_refl.
Qed.

Lemma reachable_system_inv s : reachable s → system_inv s.
Proof.
  induction 1 as [configs tracker|s t _ IH Ht|s t _ IH Ht|s o _ IH|s o _ IH
                  |s s' tr _ IH Hstep].
  - split; [|constructor|done].
    apply Inv_fresh, FocusManager_new_fresh.
  - destruct IH as [HI Hq Hb]. split; cbn; try done.
    apply Forall_app. split; [done|]. by constructor.
  - destruct IH as [HI Hq Hb]. split; cbn; try done. by constructor.
  - destruct IH as [HI Hq Hb]. by split.
  - destruct IH as [HI Hq Hb]. by split.
  - destruct IH as [HI Hq Hb]. unfold worker_step in Hstep.
    destruct (m_executor s) as [|t q] eqn:Hexec; [done|].
    injection Hstep as <- <-.
    inversion Hq as [|? ? Ht Hq']; subst.
    destruct (runTask_system_inv t (set_executor q s)) as (HI' & Hst & He & Hb');
      [done..|].
    unfold final. split; [done| |done].
    rewrite He. cbn.
    eapply Forall_impl; [exact Hq'|]. intros t'.
    by apply task_registered_statics.
Qed.

(** * The pending batch of activity records *)

Lemma batching_ret {A} (a : A) s : batching (mret a) s.
Proof. split; cbn; by rewrite ?app_nil_r. Qed.

Lemma batching_get s : batching get s.
Proof. split; cbn; by rewrite ?app_nil_r. Qed.

Lemma batching_modify f s :
  m_activityUpdates (f s) = m_activityUpdates s → batching (modify f) s.
Proof. intros H. split; cbn; by rewrite ?app_nil_r. Qed.

Lemma batching_bind {A B} (m : M A) (k : A → M B) s :
  batching m s → batching (k (m s).1.1) (m s).1.2 → batching (m ≫= k) s.
Proof.
  intros [Hd1 Hu1] [Hd2 Hu2]. unfold mbind, M_bind. split; cbn.
  - by rewrite delivered_app, Hd1, Hd2.
  - by rewrite Hu2, Hu1, pushed_app, app_assoc.
Qed.

Lemma batching_setChannelFocus h f s : batching (setChannelFocus h f) s.
Proof.
  split; [apply setChannelFocus_delivered|].
  by rewrite setChannelFocus_final.
Qed.

Lemma batching_foregroundHighest s :
  batching foregroundHighestPriorityActiveChannel s.
Proof.
  split; [apply foregroundHighest_delivered|].
  by rewrite foregroundHighest_final.
Qed.

Lemma batching_for_each_clear clr s :
  batching (for_each clr (λ channel, setChannelFocus channel NONE)) s.
Proof.
  split; [apply for_each_clear_delivered|].
  by rewrite for_each_clear_final.
Qed.

Lemma batching_update_channel h g s : batching (update_channel h g) s.
Proof. by apply batching_modify. Qed.

Lemma flushing_batching {A} (m : M A) s : batching m s → flushing m s.
Proof. intros [Hd _] b. rewrite Hd. by intros ?%elem_of_nil. Qed.

Lemma flushing_bind {A B} (m : M A) (k : A → M B) s :
  batching m s → flushing (k (m s).1.1) (m s).1.2 → flushing (m ≫= k) s.
Proof.
  intros [Hd Hu] Hk b. unfold mbind, M_bind. cbn.
  rewrite delivered_app, Hd, pushed_app, app_assoc, <- Hu. cbn. apply Hk.
Qed.

Lemma flushing_notify s : flushing notifyActivityTracker s.
Proof.
  intros b. rewrite notifyActivityTracker_run. cbn.
  destruct (m_activityTracker s); cbn.
  - rewrite list_elem_of_singleton, app_nil_r. done.
  - by intros ?%elem_of_nil.
Qed.

Ltac flush_step :=
  first
    [ apply flushing_notify
    | apply flushing_bind;
      [ first [ apply batching_setChannelFocus
              | apply batching_foregroundHighest
              | apply batching_for_each_clear
              | apply batching_update_channel
              | apply batching_get
              | by apply batching_modify
              | apply batching_ret ]
      | cbn ] ].

Ltac batch_step :=
  first
    [ apply batching_setChannelFocus
    | apply batching_ret
    | apply batching_bind; [apply batching_setChannelFocus | cbn] ].

Lemma flushing_acquire T o i s : flushing (acquireChannelHelper T o i) s.
Proof.
  unfold acquireChannelHelper.
  do 6 flush_step.
  apply flushing_bind; [|cbn; apply flushing_notify].
  destruct (getHighestPriorityActiveChannelLocked _) as [fg|];
    [|apply batching_setChannelFocus].
  case_decide; [apply batching_setChannelFocus|].
  case_match; repeat batch_step.
Qed.

Lemma flushing_release T o p n s : flushing (releaseChannelHelper T o p n) s.
Proof.
  unfold releaseChannelHelper. flush_step.
  destruct (m_allChannels s !! T) as [c|]; [|apply flushing_batching, batching_ret].
  destruct (negb _).
  { apply flushing_batching. split; cbn; by rewrite ?app_nil_r. }
  apply flushing_bind; [split; cbn; by rewrite ?app_nil_r|cbn].
  do 2 flush_step.
  apply flushing_bind; [|cbn; apply flushing_notify].
  case_match; [apply batching_foregroundHighest|apply batching_ret].
Qed.

Lemma flushing_stopForeground F i s : flushing (stopForegroundActivityHelper F i) s.
Proof.
  unfold stopForegroundActivityHelper. flush_step.
  destruct (m_allChannels s !! F) as [c|]; [|apply flushing_batching, batching_ret].
  destruct (negb _); [apply flushing_batching, batching_ret|].
  destruct (negb _); [apply flushing_batching, batching_ret|].
  do 4 flush_step.
Qed.

Lemma flushing_stopAll owners s : flushing (stopAllActivitiesHelper owners) s.
Proof.
  unfold stopAllActivitiesHelper. do 5 flush_step.
Qed.

Lemma flushing_runTask t s : flushing (runTask t) s.
Proof.
  destruct t; cbn.
  - apply flushing_acquire.
  - apply flushing_release.
  - apply flushing_stopForeground.
  - apply flushing_stopAll.
Qed.

(** * Properties of the arbitration *)

Lemma focusOf_focus s h f :
  focusOf s h = Some f → focus (m_allChannels s) h = f.
Proof.
  unfold focusOf, focus_at, focus. destruct (m_allChannels s !! h); simpl; congruence.
Qed.

Lemma focus_focusOf s h :
  registered (m_allChannels s) h →
  focusOf s h = Some (focus (m_allChannels s) h).
Proof. intros [c Hc]. unfold focusOf, focus_at, focus. by rewrite Hc. Qed.

Lemma elem_of_channels_with_focus s f h :
  h ∈ channels_with_focus s f ↔ focusOf s h = Some f.
Proof.
  unfold channels_with_focus, focusOf, focus_at. rewrite list_elem_of_fmap. split.
  - intros ([h' c] & -> & Hin). apply list_elem_of_filter in Hin as [Hf Hin].
    apply elem_of_map_to_list in Hin. cbn in *. by rewrite Hin, <- Hf.
  - destruct (m_allChannels s !! h) as [c|] eqn:Hc; [|done].
    intros [= Hf]. exists (h, c). split; [done|].
    apply list_elem_of_filter. split; [done|]. by apply elem_of_map_to_list.
Qed.

Lemma NoDup_channels_with_focus s f : NoDup (channels_with_focus s f).
Proof.
  unfold channels_with_focus.
  eapply sublist_NoDup; [apply (NoDup_fst_map_to_list (m_allChannels s))|].
  apply fmap_sublist, sublist_filter.
Qed.

Lemma NoDup_only {A} (l : list A) (o : option A) :
  NoDup l → (∀ x, x ∈ l ↔ o = Some x) → l = option_list o.
Proof.
  intros Hnd Hl. destruct o as [a|]; cbn.
  - destruct l as [|x l].
    + exfalso. eapply (not_elem_of_nil a). by apply Hl.
    + assert (x = a) as ->.
      { assert (Some a = Some x) by (apply Hl; left). congruence. }
      f_equal. destruct l as [|y l]; [done|].
      assert (y = a) as ->.
      { assert (Some a = Some y) by (apply Hl; right; left). congruence. }
      apply NoDup_cons in Hnd as [Hnd _]. exfalso. apply Hnd. left.
  - destruct l as [|x l]; [done|].
    assert (None = Some x) by (apply Hl; left). done.
Qed.

Lemma Inv_focus_foreground s h :
  Inv (m_allChannels s) (m_activeChannels s) →
  focusOf s h = Some FOREGROUND ↔ head (m_activeChannels s) = Some h.
Proof.
  intros [Hp [Hd Hs] Hf]. split.
  - intros H%focusOf_focus. rewrite Hf in H. by apply expected_FG_inv.
  - intros H. rewrite focus_focusOf, Hf, expected_FG; [done..|].
    rewrite Forall_forall in Hd. by apply Hd, head_Some_elem_of.
Qed.

(** C1 (invariant I3). After a task has run from a reachable state, the
    channels in FOREGROUND are exactly the first element of the active set:
    none when the set is empty, that one channel otherwise; and that channel
    has a priority value strictly smaller than every other active channel. *)
Theorem single_foreground_after_task s t :
  reachable s → task_registered (m_allChannels s) t →
  let s' := final (runTask t s) in
  channels_with_focus s' FOREGROUND = option_list (head (m_activeChannels s')) ∧
  (channels_with_focus s' FOREGROUND ≠ [] ↔ m_activeChannels s' ≠ []) ∧
  ∀ h y, focusOf s' h = Some FOREGROUND → y ∈ m_activeChannels s' → y ≠ h →
         h ∈ m_activeChannels s' ∧
         (prio (m_allChannels s') h < prio (m_allChannels s') y)%N.
Proof.
  intros Hr Ht. apply reachable_system_inv in Hr as [HI _ Hb].
  destruct (runTask_system_inv t s HI Hb Ht) as (HI' & _ & _ & _).
  unfold final. cbn. set (s' := (runTask t s).1.2) in *.
  assert (Hfg : channels_with_focus s' FOREGROUND
                = option_list (head (m_activeChannels s'))).
  { apply NoDup_only; [apply NoDup_channels_with_focus|].
    intros h. rewrite elem_of_channels_with_focus. by apply Inv_focus_foreground. }
  split_and!; [done| |].
  - rewrite Hfg. by destruct (m_activeChannels s').
  - intros h y Hh Hy Hne. apply Inv_focus_foreground in Hh; [|done].
    destruct HI' as [_ [_ Hs] _].
    destruct (m_activeChannels s') as [|x r]; [done|].
    cbn in Hh. injection Hh as ->. split; [left|].
    apply elem_of_cons in Hy as [->|Hy]; [done|].
    inversion Hs as [|? ? _ Hlt]; subst. rewrite Forall_forall in Hlt.
    by apply Hlt.
Qed.

Lemma single_foreground_after_task_witness :
  reachable demo_new ∧
  task_registered (m_allChannels demo_new) (AcquireTask "Content" (Some 1) "ifaceC") ∧
  let s' := final (runTask (AcquireTask "Content" (Some 1) "ifaceC") demo_new) in
  channels_with_focus s' FOREGROUND = option_list (head (m_activeChannels s')) ∧
  (channels_with_focus s' FOREGROUND ≠ [] ↔ m_activeChannels s' ≠ []) ∧
  ∀ h y, focusOf s' h = Some FOREGROUND → y ∈ m_activeChannels s' → y ≠ h →
         h ∈ m_activeChannels s' ∧
         (prio (m_allChannels s') h < prio (m_allChannels s') y)%N.
Proof.
  assert (Hr : reachable demo_new) by apply reachable_new.
  assert (Ht : task_registered (m_allChannels demo_new)
                 (AcquireTask "Content" (Some 1) "ifaceC")).
  { eexists. vm_compute. reflexivity. }
  split; [exact Hr|]. split; [exact Ht|].
  exact (single_foreground_after_task demo_new _ Hr Ht).
Defined.

Lemma reachable_Inv s :
  reachable s → Inv (m_allChannels s) (m_activeChannels s).
Proof. by intros [? _ _]%reachable_system_inv. Qed.

Lemma Inv_active_registered all active h :
  Inv all active → h ∈ active → registered all h.
Proof.
  intros [_ [Hd _] _] Hin. rewrite Forall_forall in Hd. by apply Hd.
Qed.

Lemma focus_at_withFocus (all : gmap string Channel.t) f x h :
  registered all x →
  focus_at (alter (withFocus f) x all) h
  = if decide (x = h) then Some f else focus_at all h.
Proof.
  intros [c Hc]. unfold focus_at. rewrite lookup_alter.
  case_decide; [subst|done]. rewrite Hc. cbn. by rewrite withFocus_focusState.
Qed.

Lemma focus_at_acquired T o i (all : gmap string Channel.t) h :
  T ≠ h → focus_at (acquired T o i all) h = focus_at all h.
Proof.
  intros Hne. unfold focus_at, acquired. by rewrite !lookup_alter_ne.
Qed.

(** C2. The acquire task, for a registered target [T] and the foreground
    channel [F] read after [T] was put to NONE: with no [F], or [F = T], the
    target ends FOREGROUND; when the target's priority value is strictly
    smaller, [F] ends BACKGROUND and the target FOREGROUND; otherwise the
    target ends BACKGROUND and the focus of [F] is what it was. *)
Theorem acquire_resolves_focus s T o i :
  reachable s → registered (m_allChannels s) T →
  let s' := final (acquireChannelHelper T o i s) in
  match getHighestPriorityActiveChannelLocked (final (setChannelFocus T NONE s)) with
  | None => focusOf s' T = Some FOREGROUND
  | Some F =>
    if decide (F = T) then focusOf s' T = Some FOREGROUND
    else if bool_decide (prio (m_allChannels s) T < prio (m_allChannels s) F)%N
    then focusOf s' F = Some BACKGROUND ∧ focusOf s' T = Some FOREGROUND
    else focusOf s' T = Some BACKGROUND ∧ focusOf s' F = focusOf s F
  end.
Proof.
  intros Hr HT s'. apply reachable_Inv in Hr.
  assert (Hall : m_allChannels s'
    = acquire_channels T o i (m_allChannels s) (m_activeChannels s)).
  { unfold s', final. by rewrite acquireChannelHelper_final. }
  assert (Hfg : getHighestPriorityActiveChannelLocked (final (setChannelFocus T NONE s))
    = head (m_activeChannels s)).
  { unfold final. rewrite setChannelFocus_final.
    unfold getHighestPriorityActiveChannelLocked. cbn.
    by destruct (m_activeChannels s). }
  rewrite Hfg. unfold focusOf. rewrite Hall. clear Hfg Hall. clearbody s'.
  pose proof (same_statics_acquired T o i (m_allChannels s)) as Hst.
  assert (HT' : registered (acquired T o i (m_allChannels s)) T) by by apply Hst.
  unfold acquire_channels.
  destruct (head (m_activeChannels s)) as [F|] eqn:Hact;
    [|by rewrite focus_at_withFocus, decide_True].
  assert (HF : registered (m_allChannels s) F).
  { eapply Inv_active_registered; [exact Hr|]. by apply head_Some_elem_of. }
  assert (HF' : registered (acquired T o i (m_allChannels s)) F) by by apply Hst.
  destruct (decide (F = T)) as [->|Hne];
    [by rewrite focus_at_withFocus, decide_True|].
  rewrite comparator_prio by done.
  case_bool_decide.
  - rewrite !focus_at_withFocus by (by rewrite ?registered_alter).
    rewrite decide_False by done. rewrite !decide_True by done. done.
  - rewrite !focus_at_withFocus by done.
    rewrite decide_True by done. rewrite decide_False by done.
    by rewrite focus_at_acquired.
Qed.

Lemma reachable_runTask s t :
  reachable s → task_registered (m_allChannels s) t →
  reachable (final (runTask t s)).
Proof.
  intros Hr Ht.
  apply (reachable_worker (submitToFront t s).1.2 _ (trace (runTask t s))).
  - by apply reachable_submitToFront.
  - unfold worker_step. cbn. by destruct s.
Qed.

Lemma registered_demo_new h :
  h = "Dialog" ∨ h = "Content" → registered (m_allChannels demo_new) h.
Proof. intros [->| ->]; eexists; vm_compute; reflexivity. Qed.

Lemma reachable_demo_content : reachable demo_content.
Proof.
  apply (reachable_runTask demo_new (AcquireTask "Content" (Some 1) "ifaceC")).
  - apply reachable_new.
  - apply registered_demo_new. by right.
Qed.

Lemma acquire_resolves_focus_witness :
  reachable demo_content ∧
  registered (m_allChannels demo_content) "Dialog" ∧
  let s' := final (acquireChannelHelper "Dialog" (Some 2) "ifaceD" demo_content) in
  focusOf s' "Content" = Some BACKGROUND ∧ focusOf s' "Dialog" = Some FOREGROUND.
Proof.
  assert (Hd : registered (m_allChannels demo_content) "Dialog").
  { eexists. vm_compute. reflexivity. }
  split; [exact reachable_demo_content|]. split; [exact Hd|].
  exact (acquire_resolves_focus demo_content "Dialog" (Some 2) "ifaceD"
           reachable_demo_content Hd).
Defined.

(** C3. A release task whose observer does not own the channel leaves the
    whole manager as it was (active set, every channel's focus, interface
    name and observer, pending batch, queue) and its only effect is to set
    the promise to [false]: no observer and no tracker is called. *)
Theorem release_by_non_owner s T o p n c :
  m_allChannels s !! T = Some c →
  Channel.doesObserverOwnChannel c o = false →
  final (releaseChannelHelper T o p n s) = s ∧
  trace (releaseChannelHelper T o p n s) = [PromiseSetValue p false].
Proof.
  intros Hc Ho. by rewrite (releaseChannelHelper_not_owner T o p n s c).
Qed.

Lemma release_by_non_owner_witness :
  m_allChannels demo_content !! "Content"
    = Some (Channel.mk "Content" 400 FOREGROUND "ifaceC" (Some 1)) ∧
  Channel.doesObserverOwnChannel
    (Channel.mk "Content" 400 FOREGROUND "ifaceC" (Some 1)) (Some 2) = false ∧
  final (releaseChannelHelper "Content" (Some 2) 0 "Content" demo_content)
    = demo_content ∧
  trace (releaseChannelHelper "Content" (Some 2) 0 "Content" demo_content)
    = [PromiseSetValue 0 false].
Proof.
  assert (Hc : m_allChannels demo_content !! "Content"
               = Some (Channel.mk "Content" 400 FOREGROUND "ifaceC" (Some 1)))
    by (vm_compute; reflexivity).
  assert (Ho : Channel.doesObserverOwnChannel
                 (Channel.mk "Content" 400 FOREGROUND "ifaceC" (Some 1)) (Some 2)
               = false) by (vm_compute; reflexivity).
  split; [exact Hc|]. split; [exact Ho|].
  exact (release_by_non_owner demo_content "Content" (Some 2) 0 "Content" _ Hc Ho).
Defined.

Lemma resolved_app tr1 tr2 : resolved (tr1 ++ tr2) = resolved tr1 ++ resolved tr2.
Proof. apply omap_app. Qed.

Lemma resolved_setChannelFocus h f s : resolved (setChannelFocus h f s).2 = [].
Proof.
  destruct (m_allChannels s !! h) as [c|] eqn:Hc.
  - destruct (decide (f = Channel.focusState c)) as [Hf|Hf].
    + by rewrite (setChannelFocus_unchanged h f s c).
    + rewrite (setChannelFocus_changed h f s c) by done. cbn.
      rewrite !resolved_app. unfold Channel.setFocus.
      rewrite decide_False by done. cbn.
      assert (∀ os : list nat, resolved
        (map (λ o, ManagerOnFocusChanged o (Channel.name c) f) os) = []) as ->
        by (induction os; auto).
      by destruct (Channel.observer c).
  - by rewrite setChannelFocus_dangling.
Qed.

Lemma resolved_foregroundHighest s :
  resolved (foregroundHighestPriorityActiveChannel s).2 = [].
Proof.
  rewrite foregroundHighest_run.
  destruct (m_activeChannels s); [done|]. apply resolved_setChannelFocus.
Qed.

Lemma resolved_notify s : resolved (notifyActivityTracker s).2 = [].
Proof.
  rewrite notifyActivityTracker_run. cbn. by destruct (m_activityTracker s).
Qed.

Lemma releaseChannelHelper_resolved T o p n s c :
  m_allChannels s !! T = Some c →
  resolved (releaseChannelHelper T o p n s).2
  = [(p, Channel.doesObserverOwnChannel c o)].
Proof.
  intros Hc.
  unfold releaseChannelHelper, mbind, M_bind, get, modify, emit. cbn.
  rewrite Hc. destruct (Channel.doesObserverOwnChannel c o); cbn; [|done].
  f_equal. rewrite !resolved_app, resolved_setChannelFocus, resolved_notify.
  destruct (isChannelForegroundedLocked s T); cbn; [|done].
  by rewrite resolved_foregroundHighest.
Qed.

Lemma Inv_foreground_list s :
  Inv (m_allChannels s) (m_activeChannels s) →
  channels_with_focus s FOREGROUND = option_list (head (m_activeChannels s)).
Proof.
  intros HI. apply NoDup_only; [apply NoDup_channels_with_focus|].
  intros h. rewrite elem_of_channels_with_focus. by apply Inv_focus_foreground.
Qed.

Lemma wf_set_head_lt D k x l y :
  wf_set D k (x :: l) → y ∈ l → (k x < k y)%N.
Proof.
  intros [_ Hs] Hy. inversion Hs as [|? ? _ Hlt]; subst.
  rewrite Forall_forall in Hlt. by apply Hlt.
Qed.

(** C4. The owner releases the channel that is first in the active set, from
    a reachable state: the promise is set to [true] (and to nothing else),
    the channel leaves the active set and ends in NONE, and the channels in
    FOREGROUND are then exactly the first of the remaining active channels,
    the one with the smallest priority value among them; none when no
    channel remains active. *)
Theorem release_foreground_promotes_next s T o p n c :
  reachable s →
  m_allChannels s !! T = Some c →
  Channel.doesObserverOwnChannel c o = true →
  getHighestPriorityActiveChannelLocked s = Some T →
  let r := releaseChannelHelper T o p n s in
  resolved (trace r) = [(p, true)] ∧
  m_activeChannels (final r) = tail (m_activeChannels s) ∧
  (T ∉ m_activeChannels (final r)) ∧
  focusOf (final r) T = Some NONE ∧
  channels_with_focus (final r) FOREGROUND
    = option_list (head (m_activeChannels (final r))) ∧
  ∀ h y, head (m_activeChannels (final r)) = Some h →
         y ∈ m_activeChannels (final r) → y ≠ h →
         (prio (m_allChannels s) h < prio (m_allChannels s) y)%N.
Proof.
  intros Hr Hc Ho Hfg r. apply reachable_Inv in Hr as HI.
  assert (HT : registered (m_allChannels s) T) by by exists c.
  pose proof (Inv_release _ _ HI T HT) as HI'.
  pose proof (releaseChannelHelper_final T o p n s c Hc Ho) as Hfin.
  fold r in Hfin. unfold final, trace.
  unfold getHighestPriorityActiveChannelLocked in Hfg.
  destruct (m_activeChannels s) as [|x rest] eqn:Hact; [done|].
  injection Hfg as ->.
  assert (Herase : set_erase (ChannelPtrComparator (m_allChannels s)) T (T :: rest)
                   = rest).
  { eapply (set_erase_head (registered (m_allChannels s))); [|done].
    apply comparator_prio. }
  rewrite Herase in HI', Hfin.
  assert (Hnot : T ∉ rest).
  { intros Hin. destruct HI as [_ Hwf _].
    pose proof (wf_set_head_lt _ _ _ _ _ Hwf Hin). lia. }
  assert (Hact' : m_activeChannels r.1.2 = rest) by by rewrite Hfin.
  assert (Hall' : m_allChannels r.1.2 = released T (m_allChannels s) (T :: rest))
    by by rewrite Hfin.
  rewrite <- Hall', <- Hact' in HI'.
  split_and!.
  - unfold r. by rewrite (releaseChannelHelper_resolved T o p n s c), Ho.
  - by rewrite Hact'.
  - by rewrite Hact'.
  - rewrite focus_focusOf.
    + f_equal. destruct HI' as [_ _ Hf]. rewrite Hf, Hact'.
      by apply expected_NONE.
    + rewrite Hall'. by apply same_statics_released.
  - by apply Inv_foreground_list.
  - rewrite Hact'. intros h y Hh Hy Hne.
    destruct rest as [|z rest']; [done|]. injection Hh as ->.
    apply elem_of_cons in Hy as [->|Hy]; [done|].
    destruct HI as [_ Hwf _].
    apply (wf_set_cons_inv (registered (m_allChannels s))) in Hwf as (_ & Hwf & _).
    by eapply wf_set_head_lt.
Qed.

Lemma reachable_demo_both : reachable demo_both.
Proof.
  apply (reachable_runTask demo_content (AcquireTask "Dialog" (Some 2) "ifaceD")).
  - apply reachable_demo_content.
  - eexists. vm_compute. reflexivity.
Qed.

Lemma release_foreground_promotes_next_witness :
  let r := releaseChannelHelper "Dialog" (Some 2) 0 "Dialog" demo_both in
  reachable demo_both ∧
  m_allChannels demo_both !! "Dialog"
    = Some (Channel.mk "Dialog" 100 FOREGROUND "ifaceD" (Some 2)) ∧
  getHighestPriorityActiveChannelLocked demo_both = Some "Dialog" ∧
  resolved (trace r) = [(0, true)] ∧
  m_activeChannels (final r) = ["Content"] ∧
  channels_with_focus (final r) FOREGROUND = ["Content"].
Proof.
  assert (Hc : m_allChannels demo_both !! "Dialog"
               = Some (Channel.mk "Dialog" 100 FOREGROUND "ifaceD" (Some 2)))
    by (vm_compute; reflexivity).
  assert (Hfg : getHighestPriorityActiveChannelLocked demo_both = Some "Dialog")
    by (vm_compute; reflexivity).
  destruct (release_foreground_promotes_next demo_both "Dialog" (Some 2) 0
              "Dialog" _ reachable_demo_both Hc eq_refl Hfg)
    as (H1 & H2 & _ & _ & H5 & _).
  cbn zeta. split_and!; [exact reachable_demo_both|exact Hc|exact Hfg|exact H1| |].
  - rewrite H2. vm_compute. reflexivity.
  - rewrite H5, H2. vm_compute. reflexivity.
Defined.

Lemma withFocus_observer f c :
  f ≠ NONE → Channel.observer (withFocus f c) = Channel.observer c.
Proof.
  intros Hf. unfold withFocus, Channel.setFocus.
  case_decide; [done|]. cbn. by rewrite decide_False.
Qed.

Lemma priority_statics all all' h :
  same_statics all all' →
  Channel.priority <$> all' !! h = Channel.priority <$> all !! h.
Proof.
  intros Hst. destruct (Hst h) as [Hr Hp]. unfold registered, prio in *.
  destruct (all' !! h) as [c'|], (all !! h) as [c|]; cbn in *.
  - by f_equal.
  - destruct (proj1 Hr) as [? ?]; [eauto|done].
  - destruct (proj2 Hr) as [? ?]; [eauto|done].
  - done.
Qed.

Lemma comparator_statics all all' a b :
  same_statics all all' →
  ChannelPtrComparator all' a b = ChannelPtrComparator all a b.
Proof.
  intros Hst. unfold ChannelPtrComparator, Channel.gt.
  pose proof (priority_statics all all' a Hst) as Ha.
  pose proof (priority_statics all all' b Hst) as Hb.
  destruct (all' !! a) as [ca'|], (all !! a) as [ca|];
    simpl in Ha; try discriminate Ha; try reflexivity;
    destruct (all' !! b) as [cb'|], (all !! b) as [cb|];
    simpl in Hb; try discriminate Hb; try reflexivity.
  injection Ha as Ha. injection Hb as Hb. by rewrite Ha, Hb.
Qed.

(** After the acquire task the target channel is attached to the observer
    the task was given. *)
Lemma acquire_channels_observer T o i all active c :
  all !! T = Some c →
  ∃ c', acquire_channels T o i all active !! T = Some c' ∧
        Channel.observer c' = o.
Proof.
  intros Hc.
  assert (Hacq : ∃ c1, acquired T o i all !! T = Some c1 ∧ Channel.observer c1 = o).
  { unfold acquired. rewrite !lookup_alter_eq, Hc. cbn. eauto. }
  destruct Hacq as (c1 & Hc1 & Ho1).
  assert (Hset : ∀ f (m : gmap string Channel.t), f ≠ NONE → m !! T = Some c1 →
            ∃ c', alter (withFocus f) T m !! T = Some c' ∧ Channel.observer c' = o).
  { intros f m Hf Hm. rewrite lookup_alter_eq, Hm. cbn.
    eexists. split; [done|]. by rewrite withFocus_observer. }
  unfold acquire_channels. destruct (head active) as [fg|]; [|by apply Hset].
  case_decide; [by apply Hset|].
  case_match; apply Hset; try done.
  by rewrite lookup_alter_ne.
Qed.

(** C5. From a reachable state, acquiring a registered channel that is not
    active and then releasing it with the same observer restores the active
    set and the focus of every channel. *)
Theorem acquire_release_round_trip s A o i p n :
  reachable s → registered (m_allChannels s) A → A ∉ m_activeChannels s →
  let s1 := final (acquireChannelHelper A o i s) in
  let r2 := releaseChannelHelper A o p n s1 in
  resolved (trace r2) = [(p, true)] ∧
  m_activeChannels (final r2) = m_activeChannels s ∧
  ∀ h, focusOf (final r2) h = focusOf s h.
Proof.
  intros Hr HA Hnot s1 r2. apply reachable_Inv in Hr as HI.
  assert (H1 : s1 = mkFocusManager
      (acquire_channels A o i (m_allChannels s) (m_activeChannels s))
      (set_insert (ChannelPtrComparator (m_allChannels s)) A (m_activeChannels s))
      (m_observers s) (m_activityTracker s) [] (m_executor s))
    by apply acquireChannelHelper_final.
  assert (Hall1 : m_allChannels s1
    = acquire_channels A o i (m_allChannels s) (m_activeChannels s))
    by by rewrite H1.
  assert (Hact1 : m_activeChannels s1
    = set_insert (ChannelPtrComparator (m_allChannels s)) A (m_activeChannels s))
    by by rewrite H1.
  pose proof (Inv_acquire _ _ HI A o i HA) as HI1.
  rewrite <- Hall1, <- Hact1 in HI1.
  pose proof (same_statics_acquire_channels A o i (m_allChannels s)
                (m_activeChannels s)) as Hst1.
  rewrite <- Hall1 in Hst1.
  destruct HA as [c Hc].
  destruct (acquire_channels_observer A o i (m_allChannels s) (m_activeChannels s)
              c Hc) as (c1 & Hc1 & Ho1).
  rewrite <- Hall1 in Hc1.
  assert (Hown : Channel.doesObserverOwnChannel c1 o = true).
  { unfold Channel.doesObserverOwnChannel. by rewrite bool_decide_true. }
  assert (H2 : r2.1.2 = mkFocusManager
      (released A (m_allChannels s1) (m_activeChannels s1))
      (set_erase (ChannelPtrComparator (m_allChannels s1)) A (m_activeChannels s1))
      (m_observers s1) (m_activityTracker s1) [] (m_executor s1))
    by apply (releaseChannelHelper_final A o p n s1 c1 Hc1 Hown).
  assert (HA1 : registered (m_allChannels s1) A) by by exists c1.
  pose proof (Inv_release _ _ HI1 A HA1) as HI2.
  assert (Hcmp : ∀ a b, ChannelPtrComparator (m_allChannels s1) a b
                        = ChannelPtrComparator (m_allChannels s) a b)
    by (intros a b; by apply comparator_statics).
  assert (Hact2 : m_activeChannels r2.1.2 = m_activeChannels s).
  { rewrite H2. cbn. rewrite (set_erase_ext _ _ _ _ Hcmp), Hact1.
    destruct HI as [Hp Hwf _].
    eapply (set_erase_insert (registered (m_allChannels s))); eauto.
    - apply comparator_prio.
    - by exists c. }
  assert (Hall2 : m_allChannels r2.1.2
            = released A (m_allChannels s1) (m_activeChannels s1))
    by by rewrite H2.
  unfold final, trace. split_and!.
  - unfold r2. by rewrite (releaseChannelHelper_resolved A o p n s1 c1), Hown.
  - done.
  - intros h. rewrite <- Hall2 in HI2.
    rewrite (set_erase_ext _ _ _ _ Hcmp), Hact1 in HI2.
    rewrite (set_erase_insert (registered (m_allChannels s)) (prio (m_allChannels s)))
      in HI2; [|apply comparator_prio|by destruct HI|by destruct HI|by exists c|done].
    pose proof (same_statics_released A (m_allChannels s1) (m_activeChannels s1))
      as Hst2. rewrite <- Hall2 in Hst2.
    destruct (m_allChannels s !! h) as [ch|] eqn:Hh.
    + assert (registered (m_allChannels s) h) as Hrh by by exists ch.
      rewrite !focus_focusOf; [|done|by apply Hst2, Hst1].
      f_equal. destruct HI2 as [_ _ Hf2], HI as [_ _ Hf].
      by rewrite Hf2, Hf.
    + assert (¬ registered (m_allChannels r2.1.2) h) as Hnr.
      { intros Hx. apply Hst2, Hst1 in Hx. destruct Hx as [? Hx]. congruence. }
      unfold focusOf, focus_at. rewrite Hh.
      destruct (m_allChannels r2.1.2 !! h) as [ch|] eqn:E; [|done].
      exfalso. apply Hnr. by exists ch.
Qed.

Lemma acquire_release_round_trip_witness :
  let s1 := final (acquireChannelHelper "Dialog" (Some 2) "ifaceD" demo_content) in
  let r2 := releaseChannelHelper "Dialog" (Some 2) 0 "Dialog" s1 in
  reachable demo_content ∧
  registered (m_allChannels demo_content) "Dialog" ∧
  ("Dialog" ∉ m_activeChannels demo_content) ∧
  resolved (trace r2) = [(0, true)] ∧
  m_activeChannels (final r2) = m_activeChannels demo_content ∧
  ∀ h, focusOf (final r2) h = focusOf demo_content h.
Proof.
  assert (Hd : registered (m_allChannels demo_content) "Dialog").
  { eexists. vm_compute. reflexivity. }
  assert (Hn : "Dialog" ∉ m_activeChannels demo_content).
  { vm_compute. intros H. apply list_elem_of_singleton in H. discriminate H. }
  cbn zeta. split; [exact reachable_demo_content|]. split; [exact Hd|].
  split; [exact Hn|].
  exact (acquire_release_round_trip demo_content "Dialog" (Some 2) "ifaceD" 0
           "Dialog" reachable_demo_content Hd Hn).
Defined.

(** * The constructor refines the specification's rule *)

Lemma registry_of_names (entries : list ChannelConfiguration) :
  ((λ config, (cfg_name config,
               Channel.new (cfg_name config) (cfg_priority config)))
     <$> entries).*1 = cfg_name <$> entries.
Proof. induction entries; cbn; by f_equal. Qed.

Lemma registry_of_lookup entries n c :
  NoDup (cfg_name <$> entries) →
  registry_of entries !! n = Some c ↔
  ∃ config, config ∈ entries ∧ cfg_name config = n ∧
            c = Channel.new n (cfg_priority config).
Proof.
  intros Hnd. unfold registry_of.
  rewrite <- elem_of_list_to_map by by rewrite registry_of_names.
  rewrite list_elem_of_fmap. split.
  - intros (config & [= -> ->] & Hin). eauto.
  - intros (config & Hin & <- & ->). eauto.
Qed.

Lemma registry_of_name_exists entries n :
  doesChannelNameExist (registry_of entries) n
  = bool_decide (n ∈ cfg_name <$> entries).
Proof.
  unfold doesChannelNameExist. apply bool_decide_ext.
  unfold registry_of. rewrite <- registry_of_names. split.
  - intros [c Hc]. apply elem_of_list_to_map_2 in Hc.
    apply list_elem_of_fmap. by exists (n, c).
  - intros Hin. destruct (list_to_map _ !! n) eqn:E; [eauto|].
    by apply not_elem_of_list_to_map in E.
Qed.

Lemma registry_of_priority_exists entries p :
  NoDup (cfg_name <$> entries) →
  doesChannelPriorityExist (registry_of entries) p
  = bool_decide (p ∈ cfg_priority <$> entries).
Proof.
  intros Hnd.
  destruct (doesChannelPriorityExist (registry_of entries) p) eqn:E; symmetry.
  - apply bool_decide_eq_true.
    apply doesChannelPriorityExist_true in E as (h & c & Hc & Hp).
    apply registry_of_lookup in Hc as (config & Hin & _ & ->); [|done].
    apply list_elem_of_fmap. by exists config.
  - apply bool_decide_eq_false. intros Hin.
    apply list_elem_of_fmap in Hin as (config & -> & Hin).
    eapply (doesChannelPriorityExist_false _ _ (cfg_name config)); [exact E| |].
    + apply registry_of_lookup; [done|]. eauto.
    + done.
Qed.

Lemma foldl_add_configuration_retained configs kept :
  NoDup (cfg_name <$> kept) →
  foldl add_configuration (registry_of kept) configs
  = registry_of (retained_entries kept configs).
Proof.
  revert kept. induction configs as [|config rest IH]; intros kept Hnd; [done|].
  cbn [foldl retained_entries]. unfold add_configuration.
  rewrite registry_of_name_exists, registry_of_priority_exists by done.
  case_bool_decide as Hname.
  { rewrite bool_decide_true by auto. by apply IH. }
  case_bool_decide as Hprio.
  { rewrite bool_decide_true by auto. by apply IH. }
  rewrite bool_decide_false by tauto.
  rewrite <- IH.
  - f_equal. unfold registry_of. rewrite fmap_app. cbn.
    rewrite list_to_map_snoc; [done|]. by rewrite registry_of_names.
  - rewrite fmap_app. apply NoDup_app. split_and!; [done| |apply NoDup_singleton].
    intros x Hx ->%list_elem_of_singleton. done.
Qed.

(** C6. The registry the constructor builds holds exactly one fresh channel
    for each entry the specification keeps, whatever the list (the
    constructor is a total function); from [A:1; B:1] it holds the channel
    "A" alone. *)
Theorem constructor_drops_duplicates configs tracker :
  m_allChannels (FocusManager_new configs tracker)
    = registry_of (retained_entries [] configs) ∧
  m_allChannels
    (FocusManager_new [mkChannelConfiguration "A" 1; mkChannelConfiguration "B" 1]
       tracker)
    = {[ "A" := Channel.new "A" 1 ]}.
Proof.
  assert (H : ∀ cs, m_allChannels (FocusManager_new cs tracker)
                    = registry_of (retained_entries [] cs)).
  { intros cs. unfold FocusManager_new. cbn.
    apply (foldl_add_configuration_retained cs []). constructor. }
  split; [apply H|]. rewrite H. vm_compute. reflexivity.
Qed.

(** * Fast-path checks and stop requests *)

(** C7. [acquireChannel] and [releaseChannel] on a name that is not
    registered change nothing and queue nothing: the first returns [false],
    the second returns its future with the promise already set to [false].
    On a registered name the queue afterwards is the queue before followed
    by the task of the call, nothing else of the manager changes and nobody
    is called; the acquire returns [true] at once and the release leaves its
    promise unset. *)
Theorem unknown_channel_fails_fast s channelName o i p :
  match m_allChannels s !! channelName with
  | None =>
    acquireChannel channelName o i s = (false, s, []) ∧
    releaseChannel channelName o p s = (p, s, [PromiseSetValue p false])
  | Some _ =>
    let ra := acquireChannel channelName o i s in
    let rr := releaseChannel channelName o p s in
    ra.1.1 = true ∧ trace ra = [] ∧
    m_executor (final ra) = m_executor s ++ [AcquireTask channelName o i] ∧
    same_but_queue s (final ra) ∧
    rr.1.1 = p ∧ trace rr = [] ∧
    m_executor (final rr)
      = m_executor s ++ [ReleaseTask channelName o p channelName] ∧
    same_but_queue s (final rr)
  end.
Proof.
  unfold acquireChannel, releaseChannel, getChannel, submit, mbind, M_bind, get,
    modify, emit, same_but_queue, final, trace. cbn.
  destruct (m_allChannels s !! channelName); cbn; done.
Qed.

Lemma Inv_head_lt all active h y :
  Inv all active → head active = Some h → y ∈ active → y ≠ h →
  (prio all h < prio all y)%N.
Proof.
  intros [_ Hwf _] Hh Hy Hne. destruct active as [|x r]; [done|].
  injection Hh as ->. apply elem_of_cons in Hy as [->|Hy]; [done|].
  by eapply wf_set_head_lt.
Qed.

(** C8. [stopForegroundActivity] on an empty active set changes nothing and
    queues nothing; otherwise it puts at the front of the queue a stop task
    for the first active channel and its interface name. The task, for a
    registered channel [F] and a captured name [i]: when [i] is no longer the
    interface of [F], or [F] has no observer, the task changes nothing and
    calls nobody; otherwise (from a reachable state) [F] ends in NONE, the
    active set loses [F] and nothing else, and the channels in FOREGROUND are
    exactly the first of the remaining active channels, which has the
    smallest priority value among them. *)
Theorem stop_foreground_reverifies s F i c :
  reachable s → m_allChannels s !! F = Some c →
  match m_activeChannels s with
  | [] => stopForegroundActivity s = (tt, s, [])
  | fg :: _ =>
    stopForegroundActivity s
    = (tt, set_executor
             (StopForegroundTask fg (interfaceOf s fg) :: m_executor s) s, [])
  end ∧
  let r := stopForegroundActivityHelper F i s in
  if bool_decide (i = Channel.getInterface c) && Channel.hasObserver c then
    focusOf (final r) F = Some NONE ∧
    (∀ h, h ∈ m_activeChannels (final r) ↔ h ∈ m_activeChannels s ∧ h ≠ F) ∧
    channels_with_focus (final r) FOREGROUND
      = option_list (head (m_activeChannels (final r))) ∧
    (∀ h y, head (m_activeChannels (final r)) = Some h →
            y ∈ m_activeChannels (final r) → y ≠ h →
            (prio (m_allChannels s) h < prio (m_allChannels s) y)%N)
  else r = (tt, s, []).
Proof.
  intros Hr Hc. split.
  { unfold stopForegroundActivity, getHighestPriorityActiveChannelLocked,
      submitToFront, mbind, M_bind, get, modify. cbn.
    by destruct (m_activeChannels s). }
  intros r. apply reachable_Inv in Hr as HI.
  case_bool_decide as Hi; cbn [andb];
    [destruct (Channel.hasObserver c) eqn:Ho|].
  2: { apply (stopForegroundActivityHelper_skip F i s c); auto. }
  2: { apply (stopForegroundActivityHelper_skip F i s c); auto. }
  assert (HF : registered (m_allChannels s) F) by by exists c.
  assert (Hfin : r.1.2 = mkFocusManager
      (promote (set_erase (ChannelPtrComparator (m_allChannels s)) F (m_activeChannels s))
         (alter (withFocus NONE) F (m_allChannels s)))
      (set_erase (ChannelPtrComparator (m_allChannels s)) F (m_activeChannels s))
      (m_observers s) (m_activityTracker s) [] (m_executor s))
    by by apply (stopForegroundActivityHelper_final F i s c).
  pose proof (Inv_stopForeground _ _ HI F HF) as HI'.
  assert (Hmem : ∀ h, h ∈ m_activeChannels r.1.2 ↔ h ∈ m_activeChannels s ∧ h ≠ F).
  { intros h. rewrite Hfin. cbn. destruct HI as [Hp Hwf _].
    eapply (set_erase_elem (registered (m_allChannels s))); eauto.
    apply comparator_prio. }
  assert (Hst : same_statics (m_allChannels s) (m_allChannels r.1.2)).
  { rewrite Hfin. cbn.
    apply same_statics_promote, same_statics_withFocus, same_statics_refl. }
  assert (HI2 : Inv (m_allChannels r.1.2) (m_activeChannels r.1.2))
    by by rewrite Hfin.
  unfold final. split_and!.
  - rewrite focus_focusOf by by apply Hst.
    f_equal. destruct HI2 as [_ _ Hf]. rewrite Hf. apply expected_NONE.
    rewrite Hmem. tauto.
  - exact Hmem.
  - by apply Inv_foreground_list.
  - intros h y Hh Hy Hne.
    destruct (Hst h) as [_ <-], (Hst y) as [_ <-].
    by eapply Inv_head_lt.
Qed.

Lemma stop_foreground_reverifies_witness :
  let r := stopForegroundActivityHelper "Dialog" "ifaceD" demo_both in
  reachable demo_both ∧
  m_allChannels demo_both !! "Dialog"
    = Some (Channel.mk "Dialog" 100 FOREGROUND "ifaceD" (Some 2)) ∧
  stopForegroundActivity demo_both
    = (tt, set_executor [StopForegroundTask "Dialog" "ifaceD"] demo_both, []) ∧
  focusOf (final r) "Dialog" = Some NONE ∧
  channels_with_focus (final r) FOREGROUND
    = option_list (head (m_activeChannels (final r))).
Proof.
  assert (Hc : m_allChannels demo_both !! "Dialog"
               = Some (Channel.mk "Dialog" 100 FOREGROUND "ifaceD" (Some 2)))
    by (vm_compute; reflexivity).
  destruct (stop_foreground_reverifies demo_both "Dialog" "ifaceD" _
              reachable_demo_both Hc) as (H1 & H2 & _ & H3 & _).
  cbn zeta. split_and!; [exact reachable_demo_both|exact Hc|exact H1|exact H2|exact H3].
Defined.

Lemma withFocus_observer_None f c :
  Channel.observer c = None → Channel.observer (withFocus f c) = None.
Proof.
  intros Ho. unfold withFocus, Channel.setFocus.
  case_decide; [done|]. cbn. by case_decide.
Qed.

Lemma withFocus_vacates c :
  Channel.focusState c ≠ NONE → Channel.observer (withFocus NONE c) = None.
Proof.
  intros Hf. unfold withFocus, Channel.setFocus.
  rewrite decide_False by done. cbn. by rewrite decide_True.
Qed.

Lemma promote_observer_None l (m : gmap string Channel.t) h c :
  m !! h = Some c → Channel.observer c = None →
  ∃ c', promote l m !! h = Some c' ∧ Channel.observer c' = None.
Proof.
  intros Hc Ho. unfold promote. destruct (head l) as [x|]; [|eauto].
  rewrite lookup_alter. case_decide; [subst|eauto].
  rewrite Hc. cbn. eexists. split; [done|]. by apply withFocus_observer_None.
Qed.

(** C9. In a state whose first active channel [C] is in FOREGROUND and
    attached to observer [o]: [stopForegroundActivity] queues, at the front,
    the stop task for [C] and its current interface; once that task has run
    [C] has no observer, and the release task of [o] for [C] run next sets
    its promise to [false] and changes nothing. The observer is detached by
    [Channel.setFocus], which is modelled from the specification. *)
Theorem release_after_stop_fails s C o cC p n :
  m_allChannels s !! C = Some cC →
  Channel.focusState cC = FOREGROUND →
  Channel.observer cC = Some o →
  getHighestPriorityActiveChannelLocked s = Some C →
  let stop := StopForegroundTask C (interfaceOf s C) in
  let s1 := final (runTask stop s) in
  let r2 := runTask (ReleaseTask C (Some o) p n) s1 in
  m_executor (final (stopForegroundActivity s)) = stop :: m_executor s ∧
  (∃ c1, m_allChannels s1 !! C = Some c1 ∧ Channel.observer c1 = None) ∧
  trace r2 = [PromiseSetValue p false] ∧
  final r2 = s1.
Proof.
  intros Hc Hfoc Hobs Hfg stop s1 r2.
  assert (Hq : m_executor (final (stopForegroundActivity s)) = stop :: m_executor s).
  { unfold stopForegroundActivity, submitToFront, mbind, M_bind, get, modify, final.
    cbn. by rewrite Hfg. }
  assert (Hi : interfaceOf s C = Channel.getInterface cC)
    by (unfold interfaceOf; by rewrite Hc).
  assert (Hhas : Channel.hasObserver cC = true).
  { unfold Channel.hasObserver. rewrite Hobs. by apply bool_decide_eq_true. }
  assert (Hfin : m_allChannels s1
    = promote (set_erase (ChannelPtrComparator (m_allChannels s)) C (m_activeChannels s))
        (alter (withFocus NONE) C (m_allChannels s))).
  { unfold s1, final, stop. cbn [runTask].
    by rewrite (stopForegroundActivityHelper_final C _ s cC). }
  assert (Hvac : ∃ c1, m_allChannels s1 !! C = Some c1 ∧ Channel.observer c1 = None).
  { rewrite Hfin. eapply promote_observer_None.
    - by rewrite lookup_alter_eq, Hc.
    - apply withFocus_vacates. by rewrite Hfoc. }
  split_and!; [exact Hq|exact Hvac|..]; destruct Hvac as (c1 & Hc1 & Ho1);
    unfold r2; cbn [runTask];
    rewrite (releaseChannelHelper_not_owner C (Some o) p n s1 c1); try done;
    unfold Channel.doesObserverOwnChannel; rewrite Ho1;
    by apply bool_decide_eq_false.
Qed.

Lemma release_after_stop_fails_witness :
  let stop := StopForegroundTask "Dialog" "ifaceD" in
  let s1 := final (runTask stop demo_both) in
  let r2 := runTask (ReleaseTask "Dialog" (Some 2) 0 "Dialog") s1 in
  m_allChannels demo_both !! "Dialog"
    = Some (Channel.mk "Dialog" 100 FOREGROUND "ifaceD" (Some 2)) ∧
  getHighestPriorityActiveChannelLocked demo_both = Some "Dialog" ∧
  m_executor (final (stopForegroundActivity demo_both)) = [stop] ∧
  trace r2 = [PromiseSetValue 0 false] ∧
  final r2 = s1.
Proof.
  assert (Hc : m_allChannels demo_both !! "Dialog"
               = Some (Channel.mk "Dialog" 100 FOREGROUND "ifaceD" (Some 2)))
    by (vm_compute; reflexivity).
  assert (Hfg : getHighestPriorityActiveChannelLocked demo_both = Some "Dialog")
    by (vm_compute; reflexivity).
  destruct (release_after_stop_fails demo_both "Dialog" 2 _ 0 "Dialog"
              Hc eq_refl eq_refl Hfg) as (H1 & _ & H3 & H4).
  cbn zeta. split_and!; [exact Hc|exact Hfg|exact H1|exact H3|exact H4].
Defined.

Lemma releaseChannelHelper_dangling T o p n s :
  m_allChannels s !! T = None → releaseChannelHelper T o p n s = (tt, s, []).
Proof.
  intros Hc. unfold releaseChannelHelper, mbind, M_bind, get. cbn.
  by rewrite Hc.
Qed.

Lemma stopForegroundActivityHelper_dangling F i s :
  m_allChannels s !! F = None → stopForegroundActivityHelper F i s = (tt, s, []).
Proof.
  intros Hc. unfold stopForegroundActivityHelper, mbind, M_bind, get. cbn.
  by rewrite Hc.
Qed.




(** * The public operations stay within the reachable states *)

Lemma reachable_acquireChannel s channelName o i :
  reachable s → reachable (final (acquireChannel channelName o i s)).
Proof.
  intros Hr.
  unfold acquireChannel, getChannel, mbind, M_bind, get, final. cbn.
  destruct (m_allChannels s !! channelName) as [c|] eqn:Hc; cbn; [|done].
  apply (reachable_submit s (AcquireTask channelName o i)); [done|by exists c].
Qed.

Lemma reachable_releaseChannel s channelName o p :
  reachable s → reachable (final (releaseChannel channelName o p s)).
Proof.
  intros Hr.
  unfold releaseChannel, getChannel, mbind, M_bind, get, emit, final. cbn.
  destruct (m_allChannels s !! channelName) as [c|] eqn:Hc; cbn; [|done].
  apply (reachable_submit s (ReleaseTask channelName o p channelName));
    [done|by exists c].
Qed.

Lemma reachable_stopForegroundActivity s :
  reachable s → reachable (final (stopForegroundActivity s)).
Proof.
  intros Hr. apply reachable_Inv in Hr as HI.
  unfold stopForegroundActivity, getHighestPriorityActiveChannelLocked,
    mbind, M_bind, get, final. cbn.
  destruct (m_activeChannels s) as [|fg rest] eqn:Hact; cbn; [done|].
  apply (reachable_submitToFront s (StopForegroundTask fg (interfaceOf s fg)));
    [done|].
  eapply Inv_active_registered; [exact HI|]. left.
Qed.

Lemma capture_insert_keys lt entry capture h :
  h ∈ (capture_insert lt entry capture).*1 → h = entry.1 ∨ h ∈ capture.*1.
Proof.
  induction capture as [|e capture IH]; cbn.
  - rewrite list_elem_of_singleton. auto.
  - destruct (lt entry.1 e.1); [|destruct (lt e.1 entry.1)]; cbn;
      rewrite ?elem_of_cons; [tauto| |tauto].
    intros [?|?%IH]; tauto.
Qed.

Lemma owners_capture_keys address s h :
  h ∈ (owners_capture address s).*1 → h ∈ m_activeChannels s.
Proof.
  unfold owners_capture.
  assert (H : ∀ l (acc : list (Handle * string)),
    h ∈ (foldl (λ capture channel,
                  capture_insert (pointer_lt address)
                    (channel, interfaceOf s channel) capture) acc l).*1 →
    h ∈ acc.*1 ∨ h ∈ l).
  { induction l as [|x l IH]; intros acc; cbn; [auto|].
    intros [Hin|Hin]%IH; [|right; by right].
    apply capture_insert_keys in Hin as [->|Hin]; [right; left|by left]. }
  intros [Hin|Hin]%H; [by apply elem_of_nil in Hin|done].
Qed.

Lemma reachable_stopAllActivities address s :
  reachable s → reachable (final (stopAllActivities address s)).
Proof.
  intros Hr. pose proof (reachable_Inv s Hr) as [_ [Hd _] _].
  assert (Ht : task_registered (m_allChannels s)
                 (StopAllTask (owners_capture address s))).
  { cbn. rewrite Forall_forall in Hd. apply Forall_forall. intros [h i] Hin.
    apply Hd, (owners_capture_keys address). apply list_elem_of_fmap.
    by exists (h, i). }
  unfold stopAllActivities, mbind, M_bind, get, final. cbn.
  fold (owners_capture address s).
  destruct (m_activeChannels s) as [|fg rest] eqn:Hact; cbn; [done|].
  by apply (reachable_submitToFront s _ Hr).
Qed.

(** * Further properties: stopping all activities *)

Lemma withFocus_name f c : Channel.name (withFocus f c) = Channel.name c.
Proof.
  unfold withFocus, Channel.setFocus.
  destruct (decide (f = Channel.focusState c)); reflexivity.
Qed.

Lemma withFocus_interfaceName f c :
  Channel.interfaceName (withFocus f c) = Channel.interfaceName c.
Proof.
  unfold withFocus, Channel.setFocus.
  destruct (decide (f = Channel.focusState c)); reflexivity.
Qed.

Lemma still_owned_cons all x i owners h :
  still_owned all ((x, i) :: owners) h ↔
  (h = x ∧ ∃ c, all !! x = Some c ∧ Channel.getInterface c = i)
  ∨ still_owned all owners h.
Proof.
  unfold still_owned. split.
  - intros (c & Hc & Hin). apply elem_of_cons in Hin as [Heq|Hin].
    + injection Heq as -> <-. left. eauto.
    + right. eauto.
  - intros [(-> & c & Hc & <-)|(c & Hc & Hin)].
    + exists c. split; [done|]. left.
    + exists c. split; [done|]. by right.
Qed.

Lemma stopAll_scan_cleared all owners (acc : list Handle * list Handle) h :
  h ∈ (foldl (stopAll_scan all) acc owners).2
  ↔ (h ∈ acc.2 ∨ still_owned all owners h).
Proof.
  revert acc. induction owners as [|[x i] owners IH]; intros acc.
  - cbn. split; [auto|]. intros [?|(c & _ & Hin)]; [done|].
    by apply elem_of_nil in Hin.
  - cbn [foldl]. rewrite IH, still_owned_cons. unfold stopAll_scan. cbn.
    destruct (all !! x) as [cx|] eqn:Hx.
    + case_bool_decide as Hi; cbn.
      * assert (h ∈ (if decide (x ∈ acc.2) then acc.2 else acc.2 ++ [x])
                ↔ h ∈ acc.2 ∨ h = x) as ->.
        { case_decide; [|rewrite elem_of_app, list_elem_of_singleton; tauto].
          split; [tauto|]. intros [?| ->]; done. }
        split; [|naive_solver]. intros [[?|?]|?]; eauto 10.
      * split; [tauto|]. intros [?|[(_ & c & Hc & Hi')|?]]; [tauto| |tauto].
        exfalso. apply Hi. congruence.
    + split; [tauto|]. intros [?|[(_ & c & Hc & _)|?]]; [tauto|congruence|tauto].
Qed.

Lemma clear_all_lookup_other clr (m : gmap string Channel.t) h :
  h ∉ clr → clear_all clr m !! h = m !! h.
Proof.
  revert m. induction clr as [|x clr IH]; intros m Hh; [done|].
  apply not_elem_of_cons in Hh as [Hne Hh].
  change (clear_all (x :: clr) m)
    with (clear_all clr (alter (withFocus NONE) x m)).
  rewrite IH by done. by apply lookup_alter_ne.
Qed.

Lemma promote_lookup_keeps l (m : gmap string Channel.t) h c :
  m !! h = Some c →
  ∃ c', promote l m !! h = Some c' ∧
        Channel.observer c' = Channel.observer c ∧
        Channel.interfaceName c' = Channel.interfaceName c.
Proof.
  intros Hc. unfold promote. destruct (head l) as [x|]; [|eauto].
  rewrite lookup_alter. case_decide; [subst|eauto].
  rewrite Hc. cbn. eexists. split; [done|].
  by rewrite withFocus_observer, withFocus_interfaceName.
Qed.

Lemma registered_cleared_promoted all l clr h :
  registered all h → registered (promote l (clear_all clr all)) h.
Proof.
  intros Hh.
  pose proof (same_statics_promote all l _
                (same_statics_clear_all all clr _ (same_statics_refl all))) as Hst.
  by apply Hst.
Qed.

(** The stop-all task, from a reachable state and for any capture. A
    registered channel for which the capture holds an entry with the
    channel's current interface name leaves the active set and ends in NONE.
    Every other channel (not captured, or captured under a name that is no
    longer its own) is in the active set exactly if it was, and keeps its
    observer and its interface name. *)
Theorem stop_all_skips_changed_owners s owners h c :
  reachable s → m_allChannels s !! h = Some c →
  let s' := final (stopAllActivitiesHelper owners s) in
  (still_owned (m_allChannels s) owners h →
     (h ∉ m_activeChannels s') ∧ focusOf s' h = Some NONE) ∧
  (¬ still_owned (m_allChannels s) owners h →
     (h ∈ m_activeChannels s' ↔ h ∈ m_activeChannels s) ∧
     ∃ c', m_allChannels s' !! h = Some c' ∧
           Channel.observer c' = Channel.observer c ∧
           Channel.interfaceName c' = Channel.interfaceName c).
Proof.
  intros Hr Hc s'. apply reachable_Inv in Hr as HI.
  assert (Hfin : s' = mkFocusManager
      (promote (stopAll_scanned (m_allChannels s) (m_activeChannels s) owners).1
         (clear_all (stopAll_scanned (m_allChannels s) (m_activeChannels s) owners).2
            (m_allChannels s)))
      (stopAll_scanned (m_allChannels s) (m_activeChannels s) owners).1
      (m_observers s) (m_activityTracker s) [] (m_executor s))
    by apply stopAllActivitiesHelper_final.
  pose proof (Inv_stopAll _ _ HI owners) as HI'. cbn zeta in HI'.
  destruct (stopAll_scan_spec _ _ HI owners (m_activeChannels s, []))
    as [Hwf Hmem]; [by destruct HI|set_solver|].
  assert (Hclr : ∀ x, x ∈ (stopAll_scanned (m_allChannels s) (m_activeChannels s) owners).2
                      ↔ still_owned (m_allChannels s) owners x).
  { intros x. unfold stopAll_scanned. rewrite stopAll_scan_cleared. cbn.
    rewrite elem_of_nil. tauto. }
  fold (stopAll_scanned (m_allChannels s) (m_activeChannels s) owners) in Hmem.
  rewrite Hfin. cbn. split.
  - intros Hown. apply Hclr in Hown.
    assert (Hnot : h ∉ (stopAll_scanned (m_allChannels s) (m_activeChannels s) owners).1)
      by (rewrite Hmem; tauto).
    split; [done|].
    assert (Hreg : registered (promote
      (stopAll_scanned (m_allChannels s) (m_activeChannels s) owners).1
      (clear_all (stopAll_scanned (m_allChannels s) (m_activeChannels s) owners).2
         (m_allChannels s))) h).
    { apply registered_cleared_promoted. by exists c. }
    destruct Hreg as [c' Hc']. unfold focusOf, focus_at. cbn. rewrite Hc'. cbn.
    f_equal. destruct HI' as [_ _ Hf]. specialize (Hf h).
    unfold focus in Hf. rewrite Hc' in Hf. cbn in Hf. rewrite Hf.
    by apply expected_NONE.
  - intros Hown. rewrite <- Hclr in Hown. split; [rewrite Hmem; tauto|].
    apply promote_lookup_keeps. by rewrite clear_all_lookup_other.
Qed.

Lemma stop_all_skips_changed_owners_witness :
  let owners := [("Content", "ifaceC"); ("Dialog", "ifaceOld")] in
  let s' := final (stopAllActivitiesHelper owners demo_both) in
  reachable demo_both ∧
  m_activeChannels s' = ["Dialog"] ∧
  focusOf s' "Content" = Some NONE ∧
  focusOf s' "Dialog" = Some FOREGROUND ∧
  ("Dialog" ∈ m_activeChannels s' ↔ "Dialog" ∈ m_activeChannels demo_both).
Proof.
  assert (Hc : m_allChannels demo_both !! "Dialog"
               = Some (Channel.mk "Dialog" 100 FOREGROUND "ifaceD" (Some 2)))
    by (vm_compute; reflexivity).
  assert (Hn : ¬ still_owned (m_allChannels demo_both)
                 [("Content", "ifaceC"); ("Dialog", "ifaceOld")] "Dialog").
  { intros (c & Hc' & Hin). rewrite Hc in Hc'. injection Hc' as <-.
    cbn in Hin. rewrite !elem_of_cons, elem_of_nil in Hin.
    destruct Hin as [Hin|[Hin|[]]]; discriminate Hin. }
  destruct (stop_all_skips_changed_owners demo_both
              [("Content", "ifaceC"); ("Dialog", "ifaceOld")] "Dialog" _
              reachable_demo_both Hc) as [_ H2].
  destruct (H2 Hn) as [H3 _].
  cbn zeta. split_and!; [exact reachable_demo_both|
    vm_compute; reflexivity|vm_compute; reflexivity|vm_compute; reflexivity|exact H3].
Defined.

Lemma capture_insert_keeps lt entry capture e :
  e ∈ capture → e ∈ capture_insert lt entry capture.
Proof.
  induction capture as [|e' capture IH]; cbn; [by intros ?%elem_of_nil|].
  intros Hin. destruct (lt entry.1 e'.1); [by right|].
  destruct (lt e'.1 entry.1); [|done].
  apply elem_of_cons in Hin as [->|Hin]; [left|right; by apply IH].
Qed.

Lemma capture_insert_enters address entry capture :
  entry ∈ capture_insert (pointer_lt address) entry capture
  ∨ ∃ e, e ∈ capture ∧ address e.1 = address entry.1.
Proof.
  induction capture as [|e capture IH]; cbn; [left; left|].
  unfold pointer_lt at 1 2. case_bool_decide as H1; [left; left|].
  case_bool_decide as H2.
  - destruct IH as [IH|(e' & Hin & He')]; [left; by right|].
    right. exists e'. split; [by right|done].
  - right. exists e. split; [left|lia].
Qed.

Lemma owners_capture_entries address s e :
  e ∈ owners_capture address s → e.2 = interfaceOf s e.1.
Proof.
  unfold owners_capture.
  assert (H : ∀ l (acc : list (Handle * string)),
    (∀ e', e' ∈ acc → e'.2 = interfaceOf s e'.1) →
    e ∈ foldl (λ capture channel,
                 capture_insert (pointer_lt address)
                   (channel, interfaceOf s channel) capture) acc l →
    e.2 = interfaceOf s e.1).
  { induction l as [|x l IH]; intros acc Hacc; cbn; [by apply Hacc|].
    apply IH. intros e' He'.
    assert (Hk : e' = (x, interfaceOf s x) ∨ e' ∈ acc).
    { clear -He'. induction acc as [|a acc IHa]; cbn in He'.
      - apply list_elem_of_singleton in He'. by left.
      - destruct (pointer_lt address x a.1).
        + apply elem_of_cons in He' as [->|He']; [by left|by right].
        + destruct (pointer_lt address a.1 x); [|by right].
          apply elem_of_cons in He' as [->|He']; [right; left|].
          destruct (IHa He') as [?|?]; [by left|right; by right]. }
    destruct Hk as [->|Hk]; [done|by apply Hacc]. }
  apply H. by intros ? ?%elem_of_nil.
Qed.

Lemma owners_capture_covers address s h :
  (∀ a b, a ∈ m_activeChannels s → b ∈ m_activeChannels s →
          address a = address b → a = b) →
  h ∈ m_activeChannels s → (h, interfaceOf s h) ∈ owners_capture address s.
Proof.
  intros Hinj Hh.
  assert (H : ∀ l (acc : list (Handle * string)),
    h ∈ l ∨ (∃ e, e ∈ acc ∧ address e.1 = address h) →
    ∃ e, e ∈ foldl (λ capture channel,
                      capture_insert (pointer_lt address)
                        (channel, interfaceOf s channel) capture) acc l
         ∧ address e.1 = address h).
  { induction l as [|x l IH]; intros acc; cbn.
    - intros [Hin|?]; [by apply elem_of_nil in Hin|done].
    - intros [[<-|Hin]%elem_of_cons|(e & He & Ha)]; apply IH.
      + right. destruct (capture_insert_enters address (h, interfaceOf s h) acc)
          as [Hin|(e & Hin & He)].
        * eauto.
        * exists e. split; [by apply capture_insert_keeps|done].
      + by left.
      + right. exists e. split; [by apply capture_insert_keeps|done]. }
  destruct (H (m_activeChannels s) []) as (e & He & Ha); [by left|].
  fold (owners_capture address s) in He.
  assert (e.1 = h) as Hk.
  { apply Hinj; [|done..]. apply (owners_capture_keys address).
    apply list_elem_of_fmap. by exists e. }
  pose proof (owners_capture_entries address s e He) as Hv.
  destruct e as [k v]. cbn in *. by subst.
Qed.

Lemma stopAllActivities_run address s :
  stopAllActivities address s =
  match m_activeChannels s with
  | [] => (tt, s, [])
  | _ => (tt, set_executor (StopAllTask (owners_capture address s) :: m_executor s) s,
          [])
  end.
Proof.
  unfold stopAllActivities, owners_capture, submitToFront, mbind, M_bind, get,
    modify. cbn.
  destruct (m_activeChannels s); reflexivity.
Qed.

(** [stopAllActivities] on an empty active set changes nothing and queues
    nothing; otherwise the queue afterwards starts with the stop-all task
    for its capture of the active channels, and nothing else changes. From a
    reachable state whose active channel objects have distinct addresses,
    that task empties the active set and leaves every registered channel in
    NONE. *)
Theorem stop_all_with_fresh_capture_clears_all address s :
  reachable s →
  (∀ a b, a ∈ m_activeChannels s → b ∈ m_activeChannels s →
          address a = address b → a = b) →
  let t := StopAllTask (owners_capture address s) in
  let s' := final (runTask t s) in
  match m_activeChannels s with
  | [] => stopAllActivities address s = (tt, s, [])
  | _ =>
    m_executor (final (stopAllActivities address s)) = t :: m_executor s ∧
    same_but_queue s (final (stopAllActivities address s)) ∧
    trace (stopAllActivities address s) = []
  end ∧
  m_activeChannels s' = [] ∧
  ∀ h, registered (m_allChannels s) h → focusOf s' h = Some NONE.
Proof.
  intros Hr Hinj t s'. apply reachable_Inv in Hr as HI. split.
  { rewrite stopAllActivities_run. unfold t, same_but_queue, final, trace.
    destruct (m_activeChannels s) eqn:Hact; [done|]. cbn. by rewrite Hact. }
  assert (Hfin : s' = mkFocusManager
      (promote (stopAll_scanned (m_allChannels s) (m_activeChannels s)
                  (owners_capture address s)).1
         (clear_all (stopAll_scanned (m_allChannels s) (m_activeChannels s)
                       (owners_capture address s)).2
            (m_allChannels s)))
      (stopAll_scanned (m_allChannels s) (m_activeChannels s)
         (owners_capture address s)).1
      (m_observers s) (m_activityTracker s) [] (m_executor s))
    by apply stopAllActivitiesHelper_final.
  pose proof (Inv_stopAll _ _ HI (owners_capture address s)) as HI'.
  cbn zeta in HI'.
  destruct (stopAll_scan_spec _ _ HI (owners_capture address s)
              (m_activeChannels s, []))
    as [Hwf Hmem]; [by destruct HI|set_solver|].
  fold (stopAll_scanned (m_allChannels s) (m_activeChannels s)
          (owners_capture address s)) in Hmem.
  assert (Hempty : (stopAll_scanned (m_allChannels s) (m_activeChannels s)
                      (owners_capture address s)).1 = []).
  { apply elem_of_nil_inv. intros x Hx. apply Hmem in Hx as [Hin Hnot].
    apply Hnot. unfold stopAll_scanned. apply stopAll_scan_cleared. right.
    destruct (Inv_active_registered _ _ x HI Hin) as [c Hc].
    exists c. split; [done|].
    pose proof (owners_capture_covers address s x Hinj Hin) as Hcov.
    unfold interfaceOf in Hcov. by rewrite Hc in Hcov. }
  rewrite Hfin. cbn. split; [done|].
  intros h Hh. rewrite focus_focusOf; cbn; [|by apply registered_cleared_promoted].
  f_equal. destruct HI' as [_ _ Hf]. rewrite Hf, Hempty.
  apply expected_NONE, not_elem_of_nil.
Qed.

Lemma stop_all_with_fresh_capture_clears_all_witness :
  let t := StopAllTask (owners_capture (λ h, N.of_nat (String.length h)) demo_both) in
  let s' := final (runTask t demo_both) in
  reachable demo_both ∧
  owners_capture (λ h, N.of_nat (String.length h)) demo_both
    = [("Dialog", "ifaceD"); ("Content", "ifaceC")] ∧
  m_executor (final (stopAllActivities (λ h, N.of_nat (String.length h)) demo_both))
    = [t] ∧
  m_activeChannels s' = [] ∧
  ∀ h, registered (m_allChannels demo_both) h → focusOf s' h = Some NONE.
Proof.
  assert (Hinj : ∀ a b, a ∈ m_activeChannels demo_both →
                   b ∈ m_activeChannels demo_both →
                   N.of_nat (String.length a) = N.of_nat (String.length b) → a = b).
  { intros a b Ha Hb.
    assert (Hl : m_activeChannels demo_both = ["Dialog"; "Content"])
      by (vm_compute; reflexivity).
    rewrite Hl in Ha, Hb. rewrite !elem_of_cons, elem_of_nil in Ha, Hb.
    destruct Ha as [->|[->|[]]], Hb as [->|[->|[]]]; intros Hx;
      try reflexivity; vm_compute in Hx; discriminate Hx. }
  assert (Hl : m_activeChannels demo_both = ["Dialog"; "Content"])
    by (vm_compute; reflexivity).
  assert (Hq : m_executor demo_both = []) by (vm_compute; reflexivity).
  destruct (stop_all_with_fresh_capture_clears_all
              (λ h, N.of_nat (String.length h)) demo_both reachable_demo_both Hinj)
    as (H1 & H2 & H3).
  rewrite Hl in H1. destruct H1 as (H1 & _). rewrite Hq in H1.
  cbn zeta. split_and!; [exact reachable_demo_both|vm_compute; reflexivity|
                         exact H1|exact H2|exact H3].
Defined.

(** * Further properties: focus changes and the registry *)

(** Putting a channel to the focus it has does nothing: no callback, no
    record, no change. Hence [setChannelFocus] is idempotent: a second
    identical call changes nothing and calls nobody. *)
Theorem setChannelFocus_idempotent s h f :
  setChannelFocus h (focus (m_allChannels s) h) s = (tt, s, []) ∧
  setChannelFocus h f (final (setChannelFocus h f s))
    = (tt, final (setChannelFocus h f s), []).
Proof.
  split.
  - unfold focus. destruct (m_allChannels s !! h) as [c|] eqn:Hc; cbn.
    + by apply (setChannelFocus_unchanged h _ s c).
    + by apply setChannelFocus_dangling.
  - unfold final. destruct (m_allChannels s !! h) as [c|] eqn:Hc.
    + apply (setChannelFocus_unchanged h f _ (withFocus f c)).
      * rewrite setChannelFocus_final. cbn. by rewrite lookup_alter_eq, Hc.
      * by rewrite withFocus_focusState.
    + rewrite (setChannelFocus_dangling h f s Hc). cbn.
      by apply setChannelFocus_dangling.
Qed.

Lemma statics_alter g x (m : gmap string Channel.t) h :
  (∀ c, statics_of (g c) = statics_of c) →
  statics_of <$> alter g x m !! h = statics_of <$> m !! h.
Proof.
  intros Hg. rewrite lookup_alter. case_decide; [subst|done].
  destruct (m !! h); cbn; by rewrite ?Hg.
Qed.

Lemma statics_withFocus f c : statics_of (withFocus f c) = statics_of c.
Proof. unfold statics_of. by rewrite withFocus_name, withFocus_priority. Qed.

Lemma statics_promote l (m : gmap string Channel.t) h :
  statics_of <$> promote l m !! h = statics_of <$> m !! h.
Proof.
  unfold promote. destruct (head l); [|done].
  apply statics_alter, statics_withFocus.
Qed.

Lemma statics_clear_all clr (m : gmap string Channel.t) h :
  statics_of <$> clear_all clr m !! h = statics_of <$> m !! h.
Proof.
  revert m. induction clr as [|x clr IH]; intros m; [done|].
  change (clear_all (x :: clr) m)
    with (clear_all clr (alter (withFocus NONE) x m)).
  rewrite IH. apply statics_alter, statics_withFocus.
Qed.

Lemma statics_acquire_channels T o i (m : gmap string Channel.t) l h :
  statics_of <$> acquire_channels T o i m l !! h = statics_of <$> m !! h.
Proof.
  assert (Hacq : statics_of <$> acquired T o i m !! h = statics_of <$> m !! h).
  { unfold acquired. rewrite !statics_alter; [done|apply statics_withFocus|done..]. }
  unfold acquire_channels. destruct (head l) as [fg|];
    repeat case_decide; try case_match;
    rewrite !statics_alter by apply statics_withFocus; done.
Qed.

Lemma runTask_statics t s h :
  statics_of <$> m_allChannels (runTask t s).1.2 !! h
  = statics_of <$> m_allChannels s !! h.
Proof.
  destruct t as [T o i|T o p n|F i|owners]; cbn [runTask].
  - rewrite acquireChannelHelper_final. cbn. apply statics_acquire_channels.
  - destruct (m_allChannels s !! T) as [c|] eqn:Hc.
    + destruct (Channel.doesObserverOwnChannel c o) eqn:Ho.
      * rewrite (releaseChannelHelper_final T o p n s c) by done. cbn.
        unfold released. case_bool_decide; rewrite ?statics_promote;
          apply statics_alter, statics_withFocus.
      * by rewrite (releaseChannelHelper_not_owner T o p n s c).
    + by rewrite releaseChannelHelper_dangling.
  - destruct (m_allChannels s !! F) as [c|] eqn:Hc.
    + destruct (decide (i = Channel.getInterface c)) as [Hi|Hi];
        [destruct (Channel.hasObserver c) eqn:Ho|].
      * rewrite (stopForegroundActivityHelper_final F i s c) by done. cbn.
        rewrite statics_promote. apply statics_alter, statics_withFocus.
      * by rewrite (stopForegroundActivityHelper_skip F i s c) by auto.
      * by rewrite (stopForegroundActivityHelper_skip F i s c) by auto.
    + by rewrite stopForegroundActivityHelper_dangling.
  - rewrite stopAllActivitiesHelper_final. cbn.
    by rewrite statics_promote, statics_clear_all.
Qed.

(** The registry is fixed once built: whatever the task and the state, the
    task adds no channel, removes none, and changes no channel's name or
    priority. *)
Theorem tasks_keep_the_registry t s h :
  statics_of <$> m_allChannels (final (runTask t s)) !! h
  = statics_of <$> m_allChannels s !! h ∧
  (registered (m_allChannels (final (runTask t s))) h
   ↔ registered (m_allChannels s) h).
Proof.
  pose proof (runTask_statics t s h) as Hst. unfold final, registered.
  split; [exact Hst|].
  destruct (m_allChannels (runTask t s).1.2 !! h) as [c'|],
    (m_allChannels s !! h) as [c|]; try done.
  all: split; intros [? ?]; done.
Qed.

Lemma reachable_names s h c :
  reachable s → m_allChannels s !! h = Some c → Channel.name c = h.
Proof.
  intros Hr. revert h c.
  induction Hr as [configs tracker|s t _ IH Ht|s t _ IH Ht|s o _ IH|s o _ IH
                   |s s' tr _ IH Hstep]; try exact IH.
  - intros h c Hc.
    destruct (FocusManager_new_fresh configs tracker) as [Hnew _].
    apply Hnew in Hc. by rewrite Hc.
  - intros h c Hc. unfold worker_step in Hstep.
    destruct (m_executor s) as [|t q]; [done|]. injection Hstep as <- _.
    pose proof (runTask_statics t (set_executor q s) h) as Hst.
    unfold final in Hc. rewrite Hc in Hst. cbn in Hst.
    destruct (m_allChannels s !! h) as [c0|] eqn:Hc0; [|done].
    injection Hst as Hn _. rewrite Hn. by apply IH.
Qed.

(** Invariant I1. In every reachable state each channel is stored under its
    own name, so [getChannel] returns the channel of that name, and no two
    registered channels have the same priority. *)
Theorem registry_names_and_priorities_distinct s :
  reachable s →
  (∀ h c, m_allChannels s !! h = Some c → Channel.getName c = h) ∧
  (∀ n h, getChannel s n = Some h →
     ∃ c, m_allChannels s !! h = Some c ∧ Channel.getName c = n) ∧
  (∀ a b ca cb, m_allChannels s !! a = Some ca → m_allChannels s !! b = Some cb →
     Channel.getPriority ca = Channel.getPriority cb → a = b).
Proof.
  intros Hr. split_and!.
  - intros h c. by apply reachable_names.
  - intros n h. unfold getChannel.
    destruct (m_allChannels s !! n) as [c|] eqn:Hc; [|done].
    intros [= <-]. exists c. split; [done|]. by apply (reachable_names s).
  - intros a b ca cb Ha Hb Hp. apply reachable_Inv in Hr as [Hinj _ _].
    apply Hinj; [by exists ca|by exists cb|].
    unfold prio. by rewrite Ha, Hb.
Qed.

Lemma registry_names_and_priorities_distinct_witness :
  reachable demo_both ∧
  (∀ h c, m_allChannels demo_both !! h = Some c → Channel.getName c = h) ∧
  getChannel demo_both "Dialog" = Some "Dialog".
Proof.
  destruct (registry_names_and_priorities_distinct demo_both reachable_demo_both)
    as (H1 & _ & _).
  split_and!; [exact reachable_demo_both|exact H1|vm_compute; reflexivity].
Defined.

Lemma retained_entries_valid kept configs :
  NoDup (cfg_name <$> kept ++ configs) →
  NoDup (cfg_priority <$> kept ++ configs) →
  retained_entries kept configs = kept ++ configs.
Proof.
  revert kept. induction configs as [|config rest IH]; intros kept Hn Hp.
  - by rewrite app_nil_r.
  - cbn [retained_entries].
    rewrite !fmap_app in Hn. rewrite !fmap_app in Hp. cbn in Hn, Hp.
    pose proof Hn as Hn'. pose proof Hp as Hp'.
    apply NoDup_app in Hn' as (_ & Hn' & _).
    apply NoDup_app in Hp' as (_ & Hp' & _).
    rewrite bool_decide_false.
    + rewrite IH; rewrite <- ?app_assoc; [done|..];
        rewrite !fmap_app; cbn; by rewrite <- ?app_assoc.
    + intros [Hin|Hin]; [eapply Hn'|eapply Hp']; try exact Hin; left.
Qed.

(** A configuration list without repeated names and without repeated
    priorities is kept whole: the constructor creates one fresh channel for
    every entry, and nothing else. *)
Theorem constructor_keeps_valid_configurations configs tracker :
  NoDup (cfg_name <$> configs) → NoDup (cfg_priority <$> configs) →
  (∀ config, config ∈ configs →
     m_allChannels (FocusManager_new configs tracker) !! cfg_name config
     = Some (Channel.new (cfg_name config) (cfg_priority config))) ∧
  size (m_allChannels (FocusManager_new configs tracker)) = length configs.
Proof.
  intros Hn Hp.
  assert (Hall : m_allChannels (FocusManager_new configs tracker) = registry_of configs).
  { unfold FocusManager_new. cbn.
    rewrite <- (retained_entries_valid [] configs) at 2 by done.
    apply (foldl_add_configuration_retained configs []). constructor. }
  rewrite Hall. split.
  - intros config Hin. apply registry_of_lookup; [done|]. eauto.
  - unfold registry_of. rewrite map_size_list_to_map.
    + by rewrite length_fmap.
    + by rewrite registry_of_names.
Qed.

Lemma constructor_keeps_valid_configurations_witness :
  NoDup (cfg_name <$> demo_configs) ∧ NoDup (cfg_priority <$> demo_configs) ∧
  size (m_allChannels (FocusManager_new demo_configs None)) = 2.
Proof.
  assert (Hn : NoDup (cfg_name <$> demo_configs)).
  { cbn. repeat constructor; rewrite ?elem_of_cons, ?elem_of_nil;
      intros H; repeat destruct H as [H|H]; done. }
  assert (Hp : NoDup (cfg_priority <$> demo_configs)).
  { cbn. repeat constructor; rewrite ?elem_of_cons, ?elem_of_nil;
      intros H; repeat destruct H as [H|H]; done. }
  destruct (constructor_keeps_valid_configurations demo_configs None Hn Hp)
    as [_ H2].
  split_and!; [exact Hn|exact Hp|exact H2].
Defined.


(** In a reachable state [getHighestPriorityActiveChannelLocked] returns
    nothing exactly when no channel is active, and otherwise the active
    channel with the smallest priority value; [isChannelForegroundedLocked]
    holds exactly of the channel whose focus is FOREGROUND. *)
Theorem highest_priority_lookup_is_foreground s :
  reachable s →
  (getHighestPriorityActiveChannelLocked s = None ↔ m_activeChannels s = []) ∧
  (∀ h, getHighestPriorityActiveChannelLocked s = Some h ↔
        h ∈ m_activeChannels s ∧
        ∀ y, y ∈ m_activeChannels s →
             (prio (m_allChannels s) h ≤ prio (m_allChannels s) y)%N) ∧
  (∀ h, isChannelForegroundedLocked s h = true ↔ focusOf s h = Some FOREGROUND).
Proof.
  intros Hr. apply reachable_Inv in Hr as HI.
  assert (Hhead : getHighestPriorityActiveChannelLocked s = head (m_activeChannels s)).
  { unfold getHighestPriorityActiveChannelLocked. by destruct (m_activeChannels s). }
  split_and!.
  - rewrite Hhead. by destruct (m_activeChannels s).
  - intros h. rewrite Hhead. destruct HI as [_ Hwf _].
    by apply (head_min (registered (m_allChannels s))).
  - intros h. unfold isChannelForegroundedLocked.
    rewrite bool_decide_eq_true, Hhead. symmetry. by apply Inv_focus_foreground.
Qed.

Lemma highest_priority_lookup_is_foreground_witness :
  reachable demo_both ∧
  getHighestPriorityActiveChannelLocked demo_both = Some "Dialog" ∧
  (isChannelForegroundedLocked demo_both "Dialog" = true
   ↔ focusOf demo_both "Dialog" = Some FOREGROUND).
Proof.
  destruct (highest_priority_lookup_is_foreground demo_both reachable_demo_both)
    as (_ & _ & H3).
  split_and!; [exact reachable_demo_both|vm_compute; reflexivity|exact (H3 "Dialog")].
Defined.

(** * Further properties: the active set and the callbacks *)

Lemma wf_set_NoDup D k l : wf_set D k l → NoDup l.
Proof.
  intros [_ Hs]. induction Hs as [|x l _ IH Hlt]; constructor; [|done].
  intros Hin. rewrite Forall_forall in Hlt. specialize (Hlt x Hin). lia.
Qed.

(** Invariant I2. In every reachable state the active set holds exactly the
    registered channels whose focus is not NONE, each of them once. *)
Theorem active_set_is_the_focused_channels s :
  reachable s →
  (∀ h, h ∈ m_activeChannels s ↔ ∃ f, focusOf s h = Some f ∧ f ≠ NONE) ∧
  NoDup (m_activeChannels s) ∧
  (∀ h, h ∈ m_activeChannels s → is_Some (m_allChannels s !! h)).
Proof.
  intros Hr. apply reachable_Inv in Hr as HI. pose proof HI as [_ Hwf Hf].
  split_and!.
  - intros h. split.
    + intros Hin. exists (focus (m_allChannels s) h). split.
      * apply focus_focusOf. by eapply Inv_active_registered.
      * rewrite Hf. unfold expected. case_decide; [done|].
        by rewrite decide_True.
    + intros (f & Hfo & Hne). apply focusOf_focus in Hfo.
      rewrite Hf in Hfo. unfold expected in Hfo.
      destruct (m_activeChannels s) as [|x l] eqn:Hact; [by subst|].
      case_decide as Hh; [injection Hh as ->; left|].
      case_decide; [done|by subst].
  - by eapply wf_set_NoDup.
  - intros h Hin. by eapply Inv_active_registered.
Qed.

Lemma active_set_is_the_focused_channels_witness :
  reachable demo_both ∧ NoDup (m_activeChannels demo_both) ∧
  ("Dialog" ∈ m_activeChannels demo_both
   ↔ ∃ f, focusOf demo_both "Dialog" = Some f ∧ f ≠ NONE).
Proof.
  destruct (active_set_is_the_focused_channels demo_both reachable_demo_both)
    as (H1 & H2 & _).
  split_and!; [exact reachable_demo_both|exact H2|exact (H1 "Dialog")].
Defined.
















(** * Further properties: the calls to the activity tracker *)

Lemma tracker_calls_ret {A} (a : A) s : tracker_calls 0 (mret a) s.
Proof. split; cbn; [done|by destruct (m_activityTracker s)]. Qed.

Lemma tracker_calls_get s : tracker_calls 0 get s.
Proof. split; cbn; [done|by destruct (m_activityTracker s)]. Qed.

Lemma tracker_calls_modify f s :
  m_activityTracker (f s) = m_activityTracker s → tracker_calls 0 (modify f) s.
Proof. intros H. split; cbn; [done|by destruct (m_activityTracker s)]. Qed.

Lemma tracker_calls_promise p v s : tracker_calls 0 (emit [PromiseSetValue p v]) s.
Proof. split; cbn; [done|by destruct (m_activityTracker s)]. Qed.

Lemma tracker_calls_bind n k {A B} (m : M A) (f : A → M B) s :
  tracker_calls n m s → tracker_calls k (f (m s).1.1) (m s).1.2 →
  tracker_calls (n + k) (m ≫= f) s.
Proof.
  intros [Ht1 Hl1] [Ht2 Hl2]. unfold mbind, M_bind. split; cbn.
  - by rewrite Ht2.
  - rewrite delivered_app, length_app, Hl1, Hl2, Ht1.
    by destruct (m_activityTracker s).
Qed.

Lemma tracker_calls_setChannelFocus h f s : tracker_calls 0 (setChannelFocus h f) s.
Proof.
  split; [by rewrite setChannelFocus_final|].
  rewrite setChannelFocus_delivered. by destruct (m_activityTracker s).
Qed.

Lemma tracker_calls_foregroundHighest s :
  tracker_calls 0 foregroundHighestPriorityActiveChannel s.
Proof.
  split; [by rewrite foregroundHighest_final|].
  rewrite foregroundHighest_delivered. by destruct (m_activityTracker s).
Qed.

Lemma tracker_calls_for_each_clear clr s :
  tracker_calls 0 (for_each clr (λ channel, setChannelFocus channel NONE)) s.
Proof.
  split; [by rewrite for_each_clear_final|].
  rewrite for_each_clear_delivered. by destruct (m_activityTracker s).
Qed.

Lemma tracker_calls_notify s : tracker_calls 1 notifyActivityTracker s.
Proof.
  unfold tracker_calls. rewrite notifyActivityTracker_run. cbn.
  split; [done|]. by destruct (m_activityTracker s).
Qed.

Ltac quiet_step :=
  first
    [ apply tracker_calls_setChannelFocus
    | apply tracker_calls_foregroundHighest
    | apply tracker_calls_for_each_clear
    | apply tracker_calls_get
    | apply tracker_calls_ret
    | apply tracker_calls_promise
    | by apply tracker_calls_modify
    | apply (tracker_calls_bind 0 0); [|cbn]
    | case_match ].

Ltac tracker_step :=
  first
    [ apply tracker_calls_notify
    | apply (tracker_calls_bind 0 1); [solve [repeat quiet_step]|cbn] ].

Lemma tracker_calls_runTask t s :
  tracker_calls (if task_proceeds s t then 1 else 0) (runTask t) s.
Proof.
  destruct t as [T o i|T o p n|F i|owners]; cbn [runTask task_proceeds].
  - unfold acquireChannelHelper, update_channel. repeat tracker_step.
  - unfold releaseChannelHelper. apply (tracker_calls_bind 0); [quiet_step|cbn].
    destruct (m_allChannels s !! T) as [c|]; [|quiet_step].
    destruct (Channel.doesObserverOwnChannel c o); cbn; [|quiet_step].
    repeat tracker_step.
  - unfold stopForegroundActivityHelper.
    apply (tracker_calls_bind 0); [quiet_step|cbn].
    destruct (m_allChannels s !! F) as [c|]; [|quiet_step].
    case_bool_decide; cbn; [|quiet_step].
    destruct (Channel.hasObserver c); cbn; [|quiet_step].
    repeat tracker_step.
  - unfold stopAllActivitiesHelper. repeat tracker_step.
Qed.

(** A task that gets past its guards calls the activity tracker, if one is
    configured, exactly once, with the pending batch followed by the records
    of the task, even when there is no record at all; a release by a
    non-owner and a stop-foreground on a changed or vacated channel never
    call it. *)
Theorem tracker_called_once_per_task t s :
  delivered (trace (runTask t s))
  = if task_proceeds s t then
      match m_activityTracker s with
      | Some _ => [m_activityUpdates s ++ pushed (trace (runTask t s))]
      | None => []
      end
    else [].
Proof.
  destruct (tracker_calls_runTask t s) as [_ Hlen].
  pose proof (flushing_runTask t s) as Hfl. unfold trace.
  destruct (delivered (runTask t s).2) as [|b [|b' l]] eqn:Hd.
  - destruct (task_proceeds s t), (m_activityTracker s); done.
  - rewrite (Hfl b) by (rewrite Hd; left).
    destruct (task_proceeds s t), (m_activityTracker s); done.
  - destruct (task_proceeds s t), (m_activityTracker s); done.
Qed.

(** * Further properties: what a task leaves alone *)

Lemma runTask_frame t s :
  m_observers (runTask t s).1.2 = m_observers s ∧
  m_activityTracker (runTask t s).1.2 = m_activityTracker s ∧
  m_executor (runTask t s).1.2 = m_executor s.
Proof.
  destruct t as [T o i|T o p n|F i|owners]; cbn [runTask].
  - by rewrite acquireChannelHelper_final.
  - destruct (m_allChannels s !! T) as [c|] eqn:Hc.
    + destruct (Channel.doesObserverOwnChannel c o) eqn:Ho.
      * by rewrite (releaseChannelHelper_final T o p n s c).
      * by rewrite (releaseChannelHelper_not_owner T o p n s c).
    + by rewrite releaseChannelHelper_dangling.
  - destruct (m_allChannels s !! F) as [c|] eqn:Hc.
    + destruct (decide (i = Channel.getInterface c)) as [Hi|Hi];
        [destruct (Channel.hasObserver c) eqn:Ho|].
      * by rewrite (stopForegroundActivityHelper_final F i s c).
      * by rewrite (stopForegroundActivityHelper_skip F i s c) by auto.
      * by rewrite (stopForegroundActivityHelper_skip F i s c) by auto.
    + by rewrite stopForegroundActivityHelper_dangling.
  - by rewrite stopAllActivitiesHelper_final.
Qed.

(** No task queues a task, drops one, or touches the observers of the manager
    or the tracker. Hence a step of the worker shortens the queue by exactly
    the task it runs, and the worker stops on the empty queue only. *)
Theorem worker_step_consumes_one_task s :
  (∀ t, m_executor (final (runTask t s)) = m_executor s ∧
        m_observers (final (runTask t s)) = m_observers s ∧
        m_activityTracker (final (runTask t s)) = m_activityTracker s) ∧
  match worker_step s with
  | None => m_executor s = []
  | Some (s', tr) =>
    ∃ t, m_executor s = t :: m_executor s' ∧
         m_observers s' = m_observers s ∧
         m_activityTracker s' = m_activityTracker s
  end.
Proof.
  split.
  - intros t. destruct (runTask_frame t s) as (? & ? & ?). done.
  - unfold worker_step. destruct (m_executor s) as [|t q] eqn:Hq; [done|].
    exists t. destruct (runTask_frame t (set_executor q s)) as (Ho & Ht & He).
    unfold final. rewrite Ho, Ht, He. by destruct s.
Qed.

(** * Further properties: release of a background channel, and hand-over *)

Lemma trace_bind {A B} (m : M A) (k : A → M B) s :
  ((m ≫= k) s).2 = (m s).2 ++ (k (m s).1.1 (m s).1.2).2.
Proof. reflexivity. Qed.

Lemma releaseChannelHelper_background_pushed T o p n s c :
  m_allChannels s !! T = Some c →
  Channel.doesObserverOwnChannel c o = true →
  head (m_activeChannels s) ≠ Some T →
  pushed (releaseChannelHelper T o p n s).2
  = if decide (Channel.focusState c = NONE) then []
    else [mkActivityRecord (Channel.name c) NONE (Channel.interfaceName c)].
Proof.
  intros Hc Ho Hh. destruct s as [all active obs tracker updates exec].
  cbn in Hc, Hh.
  unfold releaseChannelHelper, mbind, M_bind, get, modify, emit. cbn.
  rewrite Hc, Ho. cbn. rewrite notifyActivityTracker_run.
  unfold isChannelForegroundedLocked, getHighestPriorityActiveChannelLocked. cbn.
  assert (Hhd : match active with [] => None | h :: _ => Some h end = head active)
    by by destruct active.
  rewrite Hhd, bool_decide_false by done. cbn.
  rewrite setChannelFocus_final. cbn -[pushed]. rewrite !pushed_app.
  set (s1 := set_activeChannels _ _).
  assert (Hc1 : m_allChannels s1 !! T = Some c) by done.
  replace (pushed match tracker with
                  | Some tracker0 => [NotifyOfActivityUpdates tracker0
                      (updates ++ pushed (setChannelFocus T NONE s1).2)]
                  | None => []
                  end) with (@nil ActivityRecord) by by destruct tracker.
  rewrite app_nil_r.
  destruct (decide (Channel.focusState c = NONE)) as [Hf|Hf].
  - by rewrite (setChannelFocus_unchanged T NONE s1 c).
  - rewrite (setChannelFocus_changed T NONE s1 c) by done. cbn -[pushed].
    rewrite !pushed_app, setFocus_pushed, pushed_manager_callbacks. cbn.
    unfold Channel.getState, withFocus, Channel.setFocus.
    rewrite decide_False by done. done.
Qed.

(** The owner releases a channel that is not the first of the active set
    (from a reachable state): the channel is put to NONE and leaves the
    active set, every other channel stays exactly as it was, the first active
    channel remains the first, and the only record pushed is that of the
    released channel (none if it was not active at all). *)
Theorem release_of_background_touches_no_other s T o p n c :
  reachable s → m_allChannels s !! T = Some c →
  Channel.doesObserverOwnChannel c o = true →
  head (m_activeChannels s) ≠ Some T →
  let r := releaseChannelHelper T o p n s in
  (∀ h, h ≠ T → m_allChannels (final r) !! h = m_allChannels s !! h) ∧
  m_allChannels (final r) !! T = Some (withFocus NONE c) ∧
  (∀ h, h ∈ m_activeChannels (final r) ↔ h ∈ m_activeChannels s ∧ h ≠ T) ∧
  head (m_activeChannels (final r)) = head (m_activeChannels s) ∧
  resolved (trace r) = [(p, true)] ∧
  pushed (trace r)
  = if decide (T ∈ m_activeChannels s)
    then [mkActivityRecord T NONE (Channel.getInterface c)] else [].
Proof.
  intros Hr Hc Ho Hh r. apply reachable_Inv in Hr as HI.
  pose proof HI as [Hp Hwf Hf].
  assert (HT : registered (m_allChannels s) T) by by exists c.
  assert (Hfin := releaseChannelHelper_final T o p n s c Hc Ho).
  assert (Hmem : ∀ h, h ∈ m_activeChannels r.1.2 ↔ h ∈ m_activeChannels s ∧ h ≠ T).
  { intros h. unfold r. rewrite Hfin. cbn.
    eapply (set_erase_elem (registered (m_allChannels s))); eauto.
    apply comparator_prio. }
  assert (Hall : m_allChannels r.1.2 = alter (withFocus NONE) T (m_allChannels s)).
  { unfold r. rewrite Hfin. cbn. unfold released.
    by rewrite bool_decide_false. }
  unfold final, trace. split_and!.
  - intros h Hne. by rewrite Hall, lookup_alter_ne.
  - by rewrite Hall, lookup_alter_eq, Hc.
  - exact Hmem.
  - destruct (head (m_activeChannels s)) as [x|] eqn:Hx.
    + eapply (wf_set_head_subset (registered (m_allChannels s))
                (prio (m_allChannels s))); [exact Hwf| |..|exact Hx|].
      * unfold r. rewrite Hfin. cbn.
        eapply set_erase_wf; eauto. apply comparator_prio.
      * intros y Hy. by apply Hmem in Hy as [? _].
      * apply Hmem. split; [by apply head_Some_elem_of|congruence].
    + destruct (m_activeChannels s) eqn:Hact; [|done].
      unfold r. rewrite Hfin. done.
  - unfold r. by rewrite (releaseChannelHelper_resolved T o p n s c), Ho.
  - unfold r. rewrite (releaseChannelHelper_background_pushed T o p n s c) by done.
    assert (Hfc : Channel.focusState c = expected (m_activeChannels s) T).
    { rewrite <- Hf. unfold focus. by rewrite Hc. }
    rewrite (reachable_names s T c) by done.
    unfold expected in Hfc. rewrite decide_False in Hfc by done.
    destruct (decide (T ∈ m_activeChannels s)).
    + rewrite decide_False by by rewrite Hfc. done.
    + by rewrite decide_True.
Qed.

Lemma release_of_background_touches_no_other_witness :
  let r := releaseChannelHelper "Content" (Some 1) 0 "Content" demo_both in
  reachable demo_both ∧
  m_allChannels demo_both !! "Content"
    = Some (Channel.mk "Content" 400 BACKGROUND "ifaceC" (Some 1)) ∧
  head (m_activeChannels demo_both) ≠ Some "Content" ∧
  m_allChannels (final r) !! "Dialog" = m_allChannels demo_both !! "Dialog" ∧
  head (m_activeChannels (final r)) = head (m_activeChannels demo_both) ∧
  resolved (trace r) = [(0, true)].
Proof.
  assert (Hc : m_allChannels demo_both !! "Content"
               = Some (Channel.mk "Content" 400 BACKGROUND "ifaceC" (Some 1)))
    by (vm_compute; reflexivity).
  assert (Hh : head (m_activeChannels demo_both) ≠ Some "Content")
    by (vm_compute; discriminate).
  destruct (release_of_background_touches_no_other demo_both "Content" (Some 1) 0
              "Content" _ reachable_demo_both Hc eq_refl Hh)
    as (H1 & _ & _ & H4 & H5 & _).
  cbn zeta. split_and!;
    [exact reachable_demo_both|exact Hc|exact Hh| |exact H4|exact H5].
  apply H1. discriminate.
Defined.

Lemma set_insert_present D k lt x l :
  (∀ a b, D a → D b → lt a b = bool_decide (k a < k b)%N) →
  wf_set D k l → x ∈ l → set_insert lt x l = l.
Proof.
  intros Hlt Hwf Hin. induction l as [|y l IH]; [by apply elem_of_nil in Hin|].
  pose proof Hwf as [Hd Hs].
  apply Forall_cons in Hd as [Hy Hd]. inversion Hs as [|? ? Hs' Hys]; subst.
  assert (Hx : D x).
  { apply elem_of_cons in Hin as [->|Hin]; [done|].
    rewrite Forall_forall in Hd. by apply Hd. }
  cbn. rewrite (Hlt x y), (Hlt y x) by done.
  apply elem_of_cons in Hin as [->|Hin].
  - by rewrite !bool_decide_false by lia.
  - rewrite Forall_forall in Hys. specialize (Hys x Hin).
    rewrite bool_decide_false, bool_decide_true by lia.
    f_equal. apply IH; [by split|done].
Qed.

(** An acquire on a channel that is already active (from a reachable state)
    hands the channel over and moves no focus: the active set and the focus
    of every channel end as they were, no other channel is touched, the
    channel carries the new observer and interface name, and the first call
    of the task tells the previous observer, if there is one, that its focus
    is NONE. *)
Theorem acquire_of_active_channel_hands_over s T o i c :
  reachable s → m_allChannels s !! T = Some c → T ∈ m_activeChannels s →
  let r := acquireChannelHelper T o i s in
  m_activeChannels (final r) = m_activeChannels s ∧
  (∀ h, focusOf (final r) h = focusOf s h) ∧
  (∀ h, h ≠ T → m_allChannels (final r) !! h = m_allChannels s !! h) ∧
  (∃ c', m_allChannels (final r) !! T = Some c' ∧
         Channel.observer c' = o ∧ Channel.getInterface c' = i) ∧
  match Channel.observer c with
  | Some old => ∃ rest, trace r = ChannelOnFocusChanged old NONE :: rest
  | None => True
  end.
Proof.
  intros Hr Hc Hin r. apply reachable_Inv in Hr as HI.
  pose proof HI as [Hp Hwf Hf].
  assert (HT : registered (m_allChannels s) T) by by exists c.
  assert (Hfin := acquireChannelHelper_final T o i s).
  assert (Hact : m_activeChannels r.1.2 = m_activeChannels s).
  { unfold r. rewrite Hfin. cbn.
    eapply set_insert_present; [|exact Hwf|exact Hin]. apply comparator_prio. }
  pose proof (Inv_acquire _ _ HI T o i HT) as HI'.
  assert (Hst : same_statics (m_allChannels s) (m_allChannels r.1.2)).
  { unfold r. rewrite Hfin. cbn. apply same_statics_acquire_channels. }
  assert (Hall : m_allChannels r.1.2
      = alter (withFocus (expected (m_activeChannels s) T)) T
          (acquired T o i (m_allChannels s))).
  { unfold r. rewrite Hfin. cbn. unfold acquire_channels, expected.
    destruct (head (m_activeChannels s)) as [fg|] eqn:Hfg.
    - destruct (decide (fg = T)) as [->|Hne].
      + by rewrite (decide_True (P := Some T = Some T)).
      + rewrite (decide_False (P := Some fg = Some T)) by congruence.
        rewrite (decide_True (P := T ∈ m_activeChannels s)) by done.
        assert (Hfgr : registered (m_allChannels s) fg)
          by (eapply Inv_active_registered; [exact HI|by apply head_Some_elem_of]).
        rewrite comparator_prio by done.
        rewrite bool_decide_false; [done|].
        assert (HTfg : T ≠ fg) by congruence.
        pose proof (Inv_head_lt _ _ fg T HI Hfg Hin HTfg). lia.
    - destruct (m_activeChannels s); [by apply elem_of_nil in Hin|done]. }
  unfold final, trace. split_and!.
  - exact Hact.
  - intros h. destruct (m_allChannels s !! h) as [ch|] eqn:Hh.
    + assert (Hreg : registered (m_allChannels s) h) by by exists ch.
      rewrite (focus_focusOf s h) by done.
      rewrite focus_focusOf by by apply Hst.
      apply (f_equal Some).
      assert (HI2 : Inv (m_allChannels r.1.2) (m_activeChannels r.1.2))
        by (unfold r; by rewrite Hfin).
      destruct HI2 as [_ _ Hf']. by rewrite Hf', Hf, Hact.
    + unfold focusOf, focus_at. rewrite Hh.
      destruct (m_allChannels r.1.2 !! h) as [ch'|] eqn:Hh'; [|done].
      assert (registered (m_allChannels s) h) as [? ?] by (apply Hst; by exists ch').
      congruence.
  - intros h Hne. rewrite Hall. unfold acquired.
    by rewrite !lookup_alter_ne.
  - rewrite Hall. unfold acquired. rewrite !lookup_alter_eq, Hc. cbn.
    eexists. split; [done|].
    assert (Hex : expected (m_activeChannels s) T ≠ NONE).
    { unfold expected. case_decide; [done|]. by rewrite decide_True. }
    unfold withFocus, Channel.setFocus, Channel.setObserver,
      Channel.setInterface, Channel.getInterface.
    repeat (case_decide; cbn); done.
  - destruct (Channel.observer c) as [old|] eqn:Hold; [|done].
    unfold r, acquireChannelHelper. rewrite trace_bind.
    rewrite (setChannelFocus_changed T NONE s c); [|done|].
    + cbn. unfold Channel.setFocus. rewrite decide_False, Hold.
      * cbn. eexists. reflexivity.
      * intros Hn. specialize (Hf T). unfold focus in Hf. rewrite Hc in Hf.
        cbn in Hf. rewrite <- Hn in Hf. symmetry in Hf.
        unfold expected in Hf. case_decide; [done|]. by rewrite decide_True in Hf.
    + intros Hn. specialize (Hf T). unfold focus in Hf. rewrite Hc in Hf.
      cbn in Hf. rewrite <- Hn in Hf. symmetry in Hf.
      unfold expected in Hf. case_decide; [done|]. by rewrite decide_True in Hf.
Qed.

Lemma acquire_of_active_channel_hands_over_witness :
  let r := acquireChannelHelper "Content" (Some 3) "ifaceX" demo_both in
  reachable demo_both ∧
  "Content" ∈ m_activeChannels demo_both ∧
  m_activeChannels (final r) = m_activeChannels demo_both ∧
  focusOf (final r) "Dialog" = focusOf demo_both "Dialog" ∧
  ∃ rest, trace r = ChannelOnFocusChanged 1 NONE :: rest.
Proof.
  assert (Hc : m_allChannels demo_both !! "Content"
               = Some (Channel.mk "Content" 400 BACKGROUND "ifaceC" (Some 1)))
    by (vm_compute; reflexivity).
  assert (Hin : "Content" ∈ m_activeChannels demo_both).
  { assert (Hl : m_activeChannels demo_both = ["Dialog"; "Content"])
      by (vm_compute; reflexivity).
    rewrite Hl. right. left. }
  destruct (acquire_of_active_channel_hands_over demo_both "Content" (Some 3)
              "ifaceX" _ reachable_demo_both Hc Hin)
    as (H1 & H2 & _ & _ & H5).
  cbn zeta. split_and!;
    [exact reachable_demo_both|exact Hin|exact H1|exact (H2 "Dialog")|exact H5].
Defined.
